(** * Subscription session of the Kraken WebSocket test suite

    A shallow embedding of [utils/websocket_client.py]
    ([KrakenWebSocketClient]) and of [calculate_book_checksum] from
    [tests/test_book.py], with the properties of the session that the
    design document states. *)

From Stdlib Require Import ZArith List Lia Bool Ascii String.
From Stdlib Require Import Floats.
From Stdlib Require DecimalString.
From stdpp Require Import base option list strings gmap.
From Equations Require Import Equations.

Local Open Scope string_scope.
Local Open Scope list_scope.
Local Open Scope Z_scope.

Set Warnings "-register-all".

(** ** Python values

    What [json.loads] produces.  A [dict] is a finite map with string
    keys. *)

Inductive pyval : Type :=
| PNone
| PBool (b : bool)
| PInt (z : Z)
| PFloat (f : float)
| PStr (s : string)
| PList (l : list pyval)
| PDict (d : gmap string pyval).

Abbreviation Dict := (gmap string pyval).

(** [bool(v)], the truth value that [not] and [or] test. *)
Definition truthy (v : pyval) : bool :=
  match v with
  | PNone => false
  | PBool b => b
  | PInt z => negb (Z.eqb z 0)
  | PFloat f => negb (PrimFloat.eqb f 0%float)
  | PStr s => negb (String.eqb s "")
  | PList l => match l with [] => false | _ :: _ => true end
  | PDict d => match map_to_list d with [] => false | _ :: _ => true end
  end.

(** [d.get(key)] and [d.get(key, default)]. *)
Definition get (d : Dict) (key : string) : pyval := default PNone (d !! key).
Definition get_or (d : Dict) (key : string) (dflt : pyval) : pyval :=
  default dflt (d !! key).

(** [isinstance(msg, dict) and msg.get(key) == tag], for a string [tag]. *)
Definition tagged (key tag : string) (msg : pyval) : bool :=
  match msg with
  | PDict d => match get d key with PStr s => String.eqb s tag | _ => false end
  | _ => false
  end.

(** [isinstance(msg, dict) and msg.get(key) in tags]. *)
Definition tagged_in (key : string) (tags : list string) (msg : pyval) : bool :=
  existsb (fun tag => tagged key tag msg) tags.

(** [str(n)] for an [int]. *)
Definition str_int (z : Z) : string :=
  DecimalString.NilZero.string_of_int (Z.to_int z).

(** [timeout or default]: [None] and [0] fall back on the default. *)
Definition py_or (override : option Z) (dflt : Z) : Z :=
  match override with
  | Some t => if Z.eqb t 0 then dflt else t
  | None => dflt
  end.

(** ** Exceptions and outcomes *)

Inductive exn : Type :=
| RuntimeError (msg : string)
| ValueError (msg : string)
| TimeoutError (msg : string)
| AttributeError (msg : string)
| JSONDecodeError (doc : string)
| WebSocketTimeoutException
| WebSocketConnectionClosedException.

Inductive outcome (A : Type) : Type :=
| Return (a : A)
| Raise (e : exn).
Arguments Return {A} a.
Arguments Raise {A} e.

(** ** The connection and the clock

    A text frame is identified with what [json.loads] makes of it: a
    value, or a rejection.  The far end is a script of arrivals: when
    each one becomes available to [recv] and how long the caller is kept
    busy after it is handed over (decoding, scheduling) before it next
    reads the clock.  Times and timeouts are in one unit, ticks of the
    clock [time.time()] reads. *)

Inductive payload : Type :=
| Json (v : pyval)
| NotJson (text : string).

Inductive delivery : Type :=
| Frame (data : payload)
| Closed.

Record arrival : Type := Arrival {
  arrives : Z;
  what : delivery;
  busy : N
}.

(** [websocket.WebSocket]: its timeout setting, what was sent through it
    (oldest first) and what the far end still has to deliver. *)
Record WebSocket : Type := MkWebSocket {
  sock_timeout : Z;
  sent : list payload;
  inbox : list arrival
}.

(** The attributes [__init__] sets. *)
Record KrakenWebSocketClient : Type := MkClient {
  url : string;
  timeout : Z;
  ws : option WebSocket;
  messages : list pyval
}.

Record world : Type := World {
  now : Z;
  self : KrakenWebSocketClient
}.

Definition set_ws (o : option WebSocket) (w : world) : world :=
  {| now := now w;
     self := {| url := url (self w); timeout := timeout (self w);
                ws := o; messages := messages (self w) |} |}.

(** Frames the far end has not delivered yet. *)
Definition pending (w : world) : nat :=
  match ws (self w) with
  | Some c => length (inbox c)
  | None => 0%nat
  end.

(** ** A state and exception monad for the methods *)

Definition M (A : Type) : Type := world -> outcome A * world.

Definition ret {A} (a : A) : M A := fun w => (Return a, w).
Definition raise {A} (e : exn) : M A := fun w => (Raise e, w).
Definition bind {A B} (m : M A) (k : A -> M B) : M B :=
  fun w => match m w with
           | (Return a, w') => k a w'
           | (Raise e, w') => (Raise e, w')
           end.

(** [try: body finally: cleanup]. An exception of the cleanup replaces
    the body's outcome. *)
Definition finally {A} (body : M A) (cleanup : M unit) : M A :=
  fun w => match body w with
           | (r, w') => match cleanup w' with
                        | (Return _, w'') => (r, w'')
                        | (Raise e, w'') => (Raise e, w'')
                        end
           end.

Notation "'let*' x ':=' m 'in' k" := (bind m (fun x => k))
  (at level 10, x pattern, m at level 100, k at level 200).

(** A method call on [self.ws]; on [None] Python raises [AttributeError]. *)
Definition on_ws {A} (attr : string)
    (f : Z -> WebSocket -> outcome A * Z * WebSocket) : M A :=
  fun w => match ws (self w) with
           | None => (Raise (AttributeError
                        ("'NoneType' object has no attribute '" +:+ attr +:+ "'")), w)
           | Some c => match f (now w) c with
                       | (r, n, c') => (r, set_ws (Some c') {| now := n; self := self w |})
                       end
           end.

Definition ws_gettimeout : M Z :=
  on_ws "gettimeout" (fun n c => (Return (sock_timeout c), n, c)).

(** [settimeout] records the value, and the socket refuses a negative one. *)
Definition ws_settimeout (t : Z) : M unit :=
  on_ws "settimeout" (fun n c =>
    let c' := {| sock_timeout := t; sent := sent c; inbox := inbox c |} in
    if Z.ltb t 0 then (Raise (ValueError "Timeout value out of range"), n, c')
    else (Return tt, n, c')).

(** The connection is closed at clock [n]: the closure that ends the
    script of the far end is due. *)
Definition is_closed (n : Z) (c : WebSocket) : bool :=
  match inbox c with
  | a :: _ =>
      match what a with
      | Closed => Z.leb (arrives a) n
      | Frame _ => false
      end
  | [] => false
  end.

(** [send] puts the frame on the wire; on a closed connection it raises
    and sends nothing. *)
Definition ws_send (data : payload) : M unit :=
  on_ws "send" (fun n c =>
    if is_closed n c then (Raise WebSocketConnectionClosedException, n, c)
    else
      (Return tt, n, {| sock_timeout := sock_timeout c; sent := sent c ++ [data];
                        inbox := inbox c |})).

(** [recv] waits for the next arrival for as long as the timeout setting
    allows.  A closed connection stays closed. *)
Definition ws_recv : M payload :=
  on_ws "recv" (fun n c =>
    let wait := Z.max 0 (sock_timeout c) in
    match inbox c with
    | a :: rest =>
        if Z.leb (arrives a) (n + wait) then
          let n' := Z.max n (arrives a) + Z.of_N (busy a) in
          match what a with
          | Frame data =>
              (Return data, n',
               {| sock_timeout := sock_timeout c; sent := sent c; inbox := rest |})
          | Closed => (Raise WebSocketConnectionClosedException, n', c)
          end
        else (Raise WebSocketTimeoutException, n + wait, c)
    | [] => (Raise WebSocketTimeoutException, n + wait, c)
    end).

Definition json_loads (data : payload) : M pyval :=
  match data with
  | Json v => ret v
  | NotJson text => raise (JSONDecodeError text)
  end.

Definition json_dumps (v : pyval) : payload := Json v.

(** [if not self.ws]. *)
Definition connected (w : world) : bool :=
  match ws (self w) with Some _ => true | None => false end.

Definition not_connected : exn := RuntimeError "Not connected. Call connect() first.".

(** ** The methods of [KrakenWebSocketClient] *)

Definition init (url : string) (timeout : Z) : KrakenWebSocketClient :=
  {| url := url; timeout := timeout; ws := None; messages := [] |}.

(** [connect]; [feed] is what the endpoint will deliver on the new connection. *)
Definition connect (feed : list arrival) : M unit :=
  fun w => (Return tt,
            set_ws (Some {| sock_timeout := timeout (self w); sent := []; inbox := feed |}) w).

Definition disconnect : M unit :=
  fun w => if connected w then (Return tt, set_ws None w) else (Return tt, w).

Definition receive_message (override : option Z) : M pyval :=
  fun w =>
    if negb (connected w) then raise not_connected w
    else
      (let* original_timeout := ws_gettimeout in
       finally
         (let* _ := match override with
                    | Some t => ws_settimeout t
                    | None => ret tt
                    end in
          let* data := ws_recv in
          let* message := json_loads data in
          ret message)
         (ws_settimeout original_timeout)) w.

(** Keeps the equation of a call's result while matching on it. *)
Definition inspect {A : Type} (x : A) : { y : A | x = y } := exist _ x eq_refl.

(** Settles that a message [receive_message] has handed over was taken
    from the inbox, by the cases of the connection and its next arrival. *)
Ltac receive_message_shrinks :=
  match goal with
  | H : receive_message ?o ?w = (Return _, ?w') |- (pending ?w' < pending ?w)%nat =>
      revert H; generalize o; clear;
      unfold receive_message, connected, pending;
      destruct w as [? [? ? [[? ? [|[? [[?|?]|] ?] ?]]|] ?]]; intros [?|]; cbn;
      unfold bind, finally, ws_gettimeout, ws_settimeout, ws_recv, on_ws, set_ws,
        json_loads, ret, raise; cbn;
      repeat match goal with
             | |- context [Z.ltb ?x ?y] => destruct (Z.ltb x y); cbn
             | |- context [Z.leb ?x ?y] => destruct (Z.leb x y); cbn
             end;
      first [discriminate | intros [= <- <-]; cbn; lia]
  end.

(** A message of the control plane: what [receive_messages] skips. *)
Definition is_noise (msg : pyval) : bool :=
  tagged "channel" "heartbeat" msg
  || tagged "channel" "status" msg
  || tagged_in "method" ["subscribe"; "unsubscribe"] msg.

(** [msg] when [isinstance(msg, dict) and msg.get("method") == method]. *)
Definition method_response (method : string) (msg : pyval) : option Dict :=
  match msg with
  | PDict d => if tagged "method" method msg then Some d else None
  | _ => None
  end.

(** The [while True] loop of [_wait_for_method]. *)
Equations? wait_loop (method : string) (start_time effective_timeout : Z)
    (w : world) : outcome Dict * world by wf (pending w) lt :=
wait_loop method start_time effective_timeout w
    with Z.gtb (now w - start_time) effective_timeout := {
  | true => (Raise (TimeoutError ("Timeout waiting for method: " +:+ method)), w)
  | false
      with inspect (receive_message
                      (Some (effective_timeout - (now w - start_time))) w) := {
    | exist _ (Return msg, w') Hrecv =>
        match method_response method msg with
        | Some d => (Return d, w')
        | None => wait_loop method start_time effective_timeout w'
        end
    | exist _ (Raise e, w') _ => (Raise e, w') } }.
Proof. receive_message_shrinks. Qed.

Definition _wait_for_method (method : string) (override : option Z) : M Dict :=
  fun w =>
    let start_time := now w in
    let effective_timeout := py_or override (timeout (self w)) in
    wait_loop method start_time effective_timeout w.

(** The [while len(messages) < count] loop of [receive_messages]. *)
Equations? receive_loop (count : Z) (start_time effective_timeout : Z)
    (msgs : list pyval) (w : world) : outcome (list pyval) * world
    by wf (pending w) lt :=
receive_loop count start_time effective_timeout msgs w
    with Z.ltb (Z.of_nat (length msgs)) count := {
  | false => (Return msgs, w)
  | true with Z.gtb (now w - start_time) effective_timeout := {
    | true =>
        (Raise (TimeoutError ("Timeout receiving messages. Got "
                  +:+ str_int (Z.of_nat (length msgs)) +:+ "/" +:+ str_int count)), w)
    | false
        with inspect (receive_message
                        (Some (effective_timeout - (now w - start_time))) w) := {
      | exist _ (Return msg, w') Hrecv =>
          if is_noise msg
          then receive_loop count start_time effective_timeout msgs w'
          else receive_loop count start_time effective_timeout (msgs ++ [msg]) w'
      | exist _ (Raise e, w') _ =>
          match msgs with
          | [] => (Raise e, w')
          | _ :: _ => (Return msgs, w')
          end } } }.
Proof. all: receive_message_shrinks. Qed.

Definition receive_messages (count : Z) (override : option Z) : M (list pyval) :=
  fun w =>
    let start_time := now w in
    let effective_timeout := py_or override (timeout (self w)) in
    receive_loop count start_time effective_timeout [] w.

(** The request both [subscribe] and [unsubscribe] build. *)
Definition request (method channel : string) (symbol : list string)
    (options : Dict) : pyval :=
  let params : Dict :=
    options ∪ <["channel" := PStr channel]> (<["symbol" := PList (PStr <$> symbol)]> ∅) in
  PDict (<["method" := PStr method]> (<["params" := PDict params]> ∅)).

Definition unsubscribe (channel : string) (symbol : list string)
    (options : Dict) : M Dict :=
  fun w =>
    if negb (connected w) then raise not_connected w
    else
      (let* _ := ws_send (json_dumps (request "unsubscribe" channel symbol options)) in
       let* ack := _wait_for_method "unsubscribe" None in
       ret ack) w.

Section Builtins.

(** The builtin [str] on decoded values, as f-strings apply it. *)
Variable py_str : pyval -> string.

Definition subscribe (channel : string) (symbol : list string)
    (options : Dict) : M Dict :=
  fun w =>
    if negb (connected w) then raise not_connected w
    else
      (let* _ := ws_send (json_dumps (request "subscribe" channel symbol options)) in
       let* ack := _wait_for_method "subscribe" None in
       if negb (truthy (get ack "success"))
       then
         let error := get_or ack "error" (PStr "Unknown error") in
         raise (ValueError ("Subscription failed: " +:+ py_str error))
       else ret ack) w.

End Builtins.

(** * The order book checksum of [tests/test_book.py] *)

(** ** CRC-32

    [zlib.crc32]: the CRC-32 of ISO 3309 (reflected polynomial
    [0xEDB88320], initial value and final complement [0xFFFFFFFF]),
    computed bit by bit over the bytes. *)

Definition crc_poly : Z := 0xEDB88320.

Definition crc_shift (c : Z) : Z :=
  if Z.testbit c 0 then Z.lxor (Z.shiftr c 1) crc_poly else Z.shiftr c 1.

Definition crc_byte (crc byte : Z) : Z := Nat.iter 8 crc_shift (Z.lxor crc byte).

Definition crc32 (data : list Z) : Z :=
  Z.lxor (fold_left crc_byte data 0xFFFFFFFF) 0xFFFFFFFF.

(** A [str] is held as its UTF-8 bytes, so [encode('utf-8')] lists them. *)
Definition encode_utf8 (s : string) : list Z :=
  map (fun ch => Z.of_nat (nat_of_ascii ch)) (list_ascii_of_string s).

(** [s.replace('.', '')]. *)
Fixpoint remove_dots (s : string) : string :=
  match s with
  | EmptyString => EmptyString
  | String ch s' =>
      if Ascii.eqb ch "." then remove_dots s' else String ch (remove_dots s')
  end.

(** [''.join(parts)]. *)
Definition join (parts : list string) : string := String.concat "" parts.

(** [l[:stop]]: a negative [stop] counts from the end. *)
Definition slice_to {A : Type} (l : list A) (stop : Z) : list A :=
  if Z.leb 0 stop then take (Z.to_nat stop) l
  else take (length l - Z.to_nat (- stop)) l.

(** A level of the book: the dict entries ['price'] and ['qty']. *)
Record level : Type := Level {
  price : pyval;
  qty : pyval
}.

Section Checksum.

(** The builtin [str], here applied to prices and quantities. *)
Variable py_str : pyval -> string.

(** The two strings a level contributes. *)
Definition level_parts (l : level) : list string :=
  [remove_dots (py_str (price l)); remove_dots (py_str (qty l))].

(** The body of the [for i in range(...)] loop. *)
Definition checksum_body (top_asks top_bids : list level)
    (checksum_parts : list string) (i : nat) : list string :=
  let checksum_parts :=
    match top_asks !! i with
    | Some ask => checksum_parts ++ level_parts ask
    | None => checksum_parts
    end in
  match top_bids !! i with
  | Some bid => checksum_parts ++ level_parts bid
  | None => checksum_parts
  end.

(** What turn [i] of the loop appends. *)
Definition row (top_asks top_bids : list level) (i : nat) : list string :=
  match top_asks !! i with Some ask => level_parts ask | None => [] end ++
  match top_bids !! i with Some bid => level_parts bid | None => [] end.

Definition calculate_book_checksum (bids asks : list level) (depth : Z) : Z :=
  let top_bids := slice_to bids depth in
  let top_asks := slice_to asks depth in
  let checksum_parts :=
    fold_left (checksum_body top_asks top_bids)
      (seq 0 (Nat.max (length top_asks) (length top_bids))) [] in
  let checksum_string := join checksum_parts in
  let crc := crc32 (encode_utf8 checksum_string) in
  Z.land crc 0xFFFFFFFF.

(** Step 7 of [test_book_data_integrity_constraints]: the assertions on
    the received checksum, with the violation a failed one appends.  The
    comparison with the recomputed value is commented out in the test. *)
Definition checksum_validation (checksum : pyval) (bids asks : list level)
    (violations : list string) : list string :=
  let positive (z : Z) :=
    if Z.gtb z 0 then
      let calculated := calculate_book_checksum bids asks 10 in
      violations
    else violations ++ ["checksum must be positive"] in
  match checksum with
  | PInt z => positive z
  | PBool b => positive (Z.b2z b)
  | _ => violations ++ ["checksum must be an integer"]
  end.

(** ** The checksum in the words of the design

    Level by level, each ask's price and quantity strings followed by
    each bid's, decimal points removed; a side that runs out is left out
    from there on. *)
Fixpoint interleaved (asks bids : list level) : list string :=
  match asks with
  | [] => flat_map level_parts bids
  | ask :: asks' =>
      level_parts ask ++
      match bids with
      | [] => interleaved asks' []
      | bid :: bids' => level_parts bid ++ interleaved asks' bids'
      end
  end.

Definition checksum_of_top_levels (bids asks : list level) (depth : Z) : Z :=
  crc32 (encode_utf8
           (join (interleaved (take (Z.to_nat depth) asks)
                              (take (Z.to_nat depth) bids)))).

End Checksum.

(** * Notions the properties are stated with *)

(** ** Tags of a message, as propositions *)

(** [msg] is a dict whose entry [key] is the string [tag]. *)
Definition has_tag (key tag : string) (msg : pyval) : Prop :=
  exists d, msg = PDict d /\ d !! key = Some (PStr tag).

(** A message [receive_messages] may hand to its caller: neither a
    heartbeat, nor a status message, nor an acknowledgment. *)
Definition data_plane (msg : pyval) : Prop :=
  ~ has_tag "channel" "heartbeat" msg /\
  ~ has_tag "channel" "status" msg /\
  ~ has_tag "method" "subscribe" msg /\
  ~ has_tag "method" "unsubscribe" msg.

(** ** One [receive_message] on a connected session *)

(** The session at clock [n] with [ib] left to deliver and [st] as the
    timeout setting; nothing else of [w] and [c] changes. *)
Definition moved (w : world) (c : WebSocket) (st n : Z) (ib : list arrival) : world :=
  set_ws (Some {| sock_timeout := st; sent := sent c; inbox := ib |})
         {| now := n; self := self w |}.

(** The clock once arrival [a] has been taken at clock [n]. *)
Definition tick (n : Z) (a : arrival) : Z := Z.max n (arrives a) + Z.of_N (busy a).

(** The outcome of one [receive_message (Some r)] on connection [c] at
    clock [n], and the clock and inbox it leaves. *)
Definition received (r n : Z) (c : WebSocket) : outcome pyval * Z * list arrival :=
  if Z.ltb r 0 then (Raise (ValueError "Timeout value out of range"), n, inbox c)
  else
    match inbox c with
    | a :: rest =>
        if Z.leb (arrives a) (n + r) then
          match what a with
          | Frame (Json v) => (Return v, tick n a, rest)
          | Frame (NotJson text) => (Raise (JSONDecodeError text), tick n a, rest)
          | Closed => (Raise WebSocketConnectionClosedException, tick n a, inbox c)
          end
        else (Raise WebSocketTimeoutException, n + r, inbox c)
    | [] => (Raise WebSocketTimeoutException, n + r, [])
    end.

(** The connection once [data] has been sent through it. *)
Definition sending (data : payload) (c : WebSocket) : WebSocket :=
  {| sock_timeout := sock_timeout c; sent := sent c ++ [data]; inbox := inbox c |}.

(** ** Streams that arrive before the deadline *)

(** The clock once the arrivals [l] have been taken one after the other. *)
Definition clock_after (n : Z) (l : list arrival) : Z := fold_left tick l n.

(** Starting at clock [n], each arrival of [l] is there by the deadline
    and the caller asks for it while the deadline has not passed. *)
Fixpoint in_time (deadline n : Z) (l : list arrival) : Prop :=
  match l with
  | [] => True
  | a :: rest =>
      n <= deadline /\ arrives a <= deadline /\ in_time deadline (tick n a) rest
  end.

(** The decoded message of an arrival that is a JSON text frame. *)
Definition json_of (a : arrival) : option pyval :=
  match what a with
  | Frame (Json v) => Some v
  | _ => None
  end.

(** A JSON frame that [_wait_for_method method] passes over. *)
Definition passed_over (method : string) (a : arrival) : Prop :=
  exists v, json_of a = Some v /\ method_response method v = None.

(** What [receive_messages] keeps of a run of arrivals. *)
Definition collected (l : list arrival) : list pyval :=
  List.filter (fun v => negb (is_noise v)) (omap json_of l).

(** The request acknowledged by [ack]: same method, a true success flag
    and a result that echoes the channel the request names. *)
Definition acknowledges (req : pyval) (ack : Dict) : Prop :=
  exists rq params result,
    req = PDict rq /\ rq !! "params" = Some (PDict params) /\
    ack !! "method" = rq !! "method" /\
    truthy (get ack "success") = true /\
    ack !! "result" = Some (PDict result) /\
    result !! "channel" = params !! "channel".

(** The errors that report a deadline. *)
Definition is_timeout (e : exn) : bool :=
  match e with
  | TimeoutError _ | WebSocketTimeoutException => true
  | _ => false
  end.

(** * Sample sessions and books *)

(** A session connected at clock 0 with a 30 tick timeout, to which the
    endpoint delivers [feed]. *)
Definition session (feed : list arrival) : world :=
  snd (connect feed {| now := 0; self := init "wss://ws.kraken.com/v2" 30 |}).

(** A JSON text frame and a frame that is not JSON. *)
Definition json_frame (t : Z) (v : pyval) (b : N) : arrival :=
  {| arrives := t; what := Frame (Json v); busy := b |}.

Definition heartbeat : pyval := PDict (<["channel" := PStr "heartbeat"]> ∅).

Definition ticker_update : pyval :=
  PDict (<["channel" := PStr "ticker"]> (<["type" := PStr "update"]> ∅)).

Definition rejection (method : string) : Dict :=
  <["method" := PStr method]>
    (<["success" := PBool false]>
       (<["error" := PStr "Currency pair not supported XYZ/USD"]> ∅)).

Definition acceptance (method channel : string) : Dict :=
  <["method" := PStr method]>
    (<["success" := PBool true]>
       (<["result" := PDict (<["channel" := PStr channel]> ∅)]> ∅)).

(** An instance of [str] for running examples: exact on strings, the
    only values the examples print. *)
Definition str_sample (v : pyval) : string :=
  match v with
  | PStr s => s
  | PInt z => str_int z
  | _ => "?"
  end.

Definition garbled (t : Z) (text : string) : arrival :=
  {| arrives := t; what := Frame (NotJson text); busy := 0 |}.

Definition status_message : pyval := PDict (<["channel" := PStr "status"]> ∅).

Definition mixed_stream : list arrival :=
  [json_frame 1 status_message 0;
   json_frame 2 (PDict (acceptance "subscribe" "ticker")) 0;
   json_frame 3 ticker_update 0;
   json_frame 4 heartbeat 0;
   json_frame 5 (PDict (acceptance "unsubscribe" "ticker")) 0;
   json_frame 6 ticker_update 1].

(** Settles [in_time] on a concrete stream. *)
Ltac timing := cbn; unfold tick; cbn; lia.

Definition sample_asks : list level :=
  [Level (PStr "50000.1") (PStr "0.5"); Level (PStr "50001.0") (PInt 2)].

Definition sample_bids : list level := [Level (PStr "49999.9") (PStr "1.25")].

(** * The context manager and what the methods leave alone *)

(** [__enter__] connects (and hands back the client); [__exit__]
    disconnects and returns [False]. *)
Definition __enter__ (feed : list arrival) : M unit := connect feed.

Definition __exit__ : M bool := let* _ := disconnect in ret false.

(** [with manager: body].  The exception of the body goes on unless
    [__exit__] returns a true value; the result is [None] when it was
    suppressed. *)
Definition py_with {A} (enter : M unit) (exit : M bool) (body : M A) : M (option A) :=
  fun w =>
    match enter w with
    | (Raise e, w1) => (Raise e, w1)
    | (Return _, w1) =>
        match body w1 with
        | (Return a, w2) =>
            match exit w2 with
            | (Return _, w3) => (Return (Some a), w3)
            | (Raise e', w3) => (Raise e', w3)
            end
        | (Raise e, w2) =>
            match exit w2 with
            | (Return suppress, w3) =>
                if suppress then (Return None, w3) else (Raise e, w3)
            | (Raise e', w3) => (Raise e', w3)
            end
        end
    end.

(** [with KrakenWebSocketClient(url, timeout) as client: body], from the
    world that holds the new client. *)
Definition with_client {A} (feed : list arrival) (body : M A) : M (option A) :=
  py_with (__enter__ feed) __exit__ body.

(** From [w] to [w'] only the clock moved and arrivals were taken from the
    front of the inbox: the attributes of the client, the timeout setting
    of the connection and what was sent through it are the same. *)
Definition kept (w w' : world) : Prop :=
  url (self w') = url (self w) /\
  timeout (self w') = timeout (self w) /\
  messages (self w') = messages (self w) /\
  match ws (self w) with
  | None => ws (self w') = None
  | Some c =>
      exists c' took,
        ws (self w') = Some c' /\
        sock_timeout c' = sock_timeout c /\
        sent c' = sent c /\
        inbox c = took ++ inbox c'
  end.




(** * The order validators of [utils/validators.py]

    Lists of [float], compared as Python compares floats. *)

(** A [for] loop over indices whose body raises or goes on, followed by
    [return True]. *)
Fixpoint first_raise (check : nat -> option exn) (indices : list nat) : outcome bool :=
  match indices with
  | [] => Return true
  | i :: rest =>
      match check i with
      | Some e => Raise e
      | None => first_raise check rest
      end
  end.

(** The body of such a loop on [xs[i-1]] and [xs[i]]. *)
Definition at_pair (xs : list float) (i : nat)
    (body : float -> float -> option exn) : option exn :=
  match xs !! (i - 1)%nat, xs !! i with
  | Some prev, Some cur => body prev cur
  | _, _ => None
  end.

Section Validators.

(** The builtin [str], which the f-strings of the messages apply. *)
Variable py_str : pyval -> string.

Definition validate_timestamps_increasing (timestamps : list float) : outcome bool :=
  first_raise
    (fun i =>
       at_pair timestamps i (fun prev cur =>
         if PrimFloat.leb cur prev then
           Some (ValueError ("Timestamps not strictly increasing: "
                   +:+ py_str (PFloat prev) +:+ " >= " +:+ py_str (PFloat cur)
                   +:+ " at index " +:+ str_int (Z.of_nat i)))
         else None))
    (seq 1 (length timestamps - 1)).

Definition validate_price_ordering (prices : list float) (descending : bool)
    : outcome bool :=
  first_raise
    (fun i =>
       at_pair prices i (fun prev cur =>
         if descending then
           if PrimFloat.ltb prev cur then
             Some (ValueError ("Prices not in descending order: "
                     +:+ py_str (PFloat prev) +:+ " < " +:+ py_str (PFloat cur)
                     +:+ " at index " +:+ str_int (Z.of_nat i)))
           else None
         else
           if PrimFloat.ltb cur prev then
             Some (ValueError ("Prices not in ascending order: "
                     +:+ py_str (PFloat prev) +:+ " > " +:+ py_str (PFloat cur)
                     +:+ " at index " +:+ str_int (Z.of_nat i)))
           else None))
    (seq 1 (length prices - 1)).

Definition validate_ohlc_relationships (open_price high low close : float)
    : outcome bool :=
  if PrimFloat.ltb open_price low then
    Raise (ValueError ("Low (" +:+ py_str (PFloat low) +:+ ") > Open ("
             +:+ py_str (PFloat open_price) +:+ ")"))
  else if PrimFloat.ltb close low then
    Raise (ValueError ("Low (" +:+ py_str (PFloat low) +:+ ") > Close ("
             +:+ py_str (PFloat close) +:+ ")"))
  else if PrimFloat.ltb high low then
    Raise (ValueError ("Low (" +:+ py_str (PFloat low) +:+ ") > High ("
             +:+ py_str (PFloat high) +:+ ")"))
  else if PrimFloat.ltb high open_price then
    Raise (ValueError ("High (" +:+ py_str (PFloat high) +:+ ") < Open ("
             +:+ py_str (PFloat open_price) +:+ ")"))
  else if PrimFloat.ltb high close then
    Raise (ValueError ("High (" +:+ py_str (PFloat high) +:+ ") < Close ("
             +:+ py_str (PFloat close) +:+ ")"))
  else Return true.

Definition validate_positive (value : float) (field_name : string) : outcome bool :=
  if PrimFloat.leb value 0 then
    Raise (ValueError (field_name +:+ " must be positive: " +:+ py_str (PFloat value)))
  else Return true.

End Validators.

(** Every two neighbours [prev], [cur] of [xs], in this order, satisfy [ok]. *)
Definition neighbours (ok : float -> float -> Prop) (xs : list float) : Prop :=
  forall i prev cur, xs !! i = Some prev -> xs !! S i = Some cur -> ok prev cur.

(** A data message that arrives before the acknowledgment; and the two
    acknowledgments of a two-symbol subscription, followed by that of a
    later one. *)
Definition early_data_stream : list arrival :=
  [json_frame 1 ticker_update 0;
   json_frame 2 (PDict (acceptance "subscribe" "ticker")) 0;
   json_frame 3 heartbeat 0;
   json_frame 4 ticker_update 0].

Definition two_symbol_stream : list arrival :=
  [json_frame 1 (PDict (acceptance "subscribe" "ticker")) 0;
   json_frame 2 (PDict (acceptance "subscribe" "ticker")) 0;
   json_frame 3 (PDict (acceptance "subscribe" "book")) 0].

(** * Properties *)

(** ** Unfolding the loops *)

(** Every message [receive_message] hands over was taken from the inbox. *)
Lemma receive_message_consumes override w msg w' :
  receive_message override w = (Return msg, w') -> (pending w' < pending w)%nat.
Proof. intros H. receive_message_shrinks. Qed.

Lemma wait_loop_step method start_time effective_timeout w :
  wait_loop method start_time effective_timeout w =
  if Z.gtb (now w - start_time) effective_timeout
  then (Raise (TimeoutError ("Timeout waiting for method: " +:+ method)), w)
  else match receive_message (Some (effective_timeout - (now w - start_time))) w with
       | (Return msg, w') =>
           match method_response method msg with
           | Some d => (Return d, w')
           | None => wait_loop method start_time effective_timeout w'
           end
       | (Raise e, w') => (Raise e, w')
       end.
Proof.
  simp wait_loop.
  destruct (Z.gtb _ _); cbn; [reflexivity|].
  destruct (receive_message _ w) as [[msg|e] w'] eqn:E; reflexivity.
Qed.

Lemma receive_loop_step count start_time effective_timeout msgs w :
  receive_loop count start_time effective_timeout msgs w =
  if Z.ltb (Z.of_nat (length msgs)) count then
    if Z.gtb (now w - start_time) effective_timeout
    then (Raise (TimeoutError ("Timeout receiving messages. Got "
                   +:+ str_int (Z.of_nat (length msgs)) +:+ "/" +:+ str_int count)), w)
    else match receive_message (Some (effective_timeout - (now w - start_time))) w with
         | (Return msg, w') =>
             if is_noise msg
             then receive_loop count start_time effective_timeout msgs w'
             else receive_loop count start_time effective_timeout (msgs ++ [msg]) w'
         | (Raise e, w') =>
             match msgs with
             | [] => (Raise e, w')
             | _ :: _ => (Return msgs, w')
             end
         end
  else (Return msgs, w).
Proof.
  simp receive_loop.
  destruct (Z.ltb _ _); cbn; [|reflexivity].
  destruct (Z.gtb _ _); cbn; [reflexivity|].
  destruct (receive_message _ w) as [[msg|e] w'] eqn:E; reflexivity.
Qed.

(** ** One [receive_message] on a connected session *)

Lemma receive_message_connected override w c :
  ws (self w) = Some c -> 0 <= sock_timeout c ->
  receive_message override w =
  match received (default (sock_timeout c) override) (now w) c with
  | (res, n, ib) => (res, moved w c (sock_timeout c) n ib)
  end.
Proof.
  intros Hc Hst.
  unfold receive_message, connected, received, moved.
  destruct w as [n [u t o ms]]; cbn in *; subst o; cbn.
  unfold bind, finally, ws_gettimeout, ws_settimeout, ws_recv, on_ws, set_ws; cbn.
  destruct c as [st sn ib]; cbn in *.
  assert (Hlt : Z.ltb st 0 = false) by lia.
  destruct override as [r|]; cbn; rewrite ?Hlt.
  - destruct (Z.ltb r 0) eqn:Hr; cbn; rewrite ?Hlt; [reflexivity|].
    replace (Z.max 0 r) with r by lia.
    destruct ib as [|[a d b] rest]; cbn; rewrite ?Hlt; [reflexivity|].
    unfold tick; cbn.
    destruct (Z.leb a (n + r)); cbn; rewrite ?Hlt; [|reflexivity].
    destruct d as [[v|text]|]; cbn; unfold ret, raise; cbn; rewrite ?Hlt; reflexivity.
  - replace (Z.max 0 st) with st by lia.
    destruct ib as [|[a d b] rest]; cbn; rewrite ?Hlt; [reflexivity|].
    unfold tick; cbn.
    destruct (Z.leb a (n + st)); cbn; rewrite ?Hlt; [|reflexivity].
    destruct d as [[v|text]|]; cbn; unfold ret, raise; cbn; rewrite ?Hlt; reflexivity.
Qed.

Lemma json_of_frame a v : json_of a = Some v -> what a = Frame (Json v).
Proof.
  unfold json_of. destruct (what a) as [[v'|text]|]; intros [= ->]; reflexivity.
Qed.

Lemma moved_here w c :
  ws (self w) = Some c -> moved w c (sock_timeout c) (now w) (inbox c) = w.
Proof.
  destruct w as [n [u t o ms]], c as [st sn ib]; cbn. intros ->. reflexivity.
Qed.

(** One turn of either loop on a JSON frame that is in time. *)
Lemma receive_message_in_time w c a rest v start_time effective_timeout :
  ws (self w) = Some c -> 0 <= sock_timeout c ->
  inbox c = a :: rest -> json_of a = Some v ->
  now w <= start_time + effective_timeout ->
  arrives a <= start_time + effective_timeout ->
  Z.gtb (now w - start_time) effective_timeout = false /\
  receive_message (Some (effective_timeout - (now w - start_time))) w =
    (Return v, moved w c (sock_timeout c) (tick (now w) a) rest).
Proof.
  intros Hc Hst Hib Hv Hn Ha. split; [lia|].
  rewrite (receive_message_connected _ w c Hc Hst).
  unfold received. cbn [from_option id]. rewrite Hib.
  replace (Z.ltb _ 0) with false by lia.
  replace (Z.leb (arrives a) _) with true by lia.
  rewrite (json_of_frame _ _ Hv). reflexivity.
Qed.

(** ** Tags *)

Lemma tagged_has_tag key tag msg : tagged key tag msg = true <-> has_tag key tag msg.
Proof.
  unfold tagged, has_tag, get. split.
  - destruct msg as [| | | | |l|d]; try discriminate.
    destruct (d !! key) as [[| | | |s| |]|] eqn:E; cbn; try discriminate.
    intros H. apply String.eqb_eq in H. subst s. eauto.
  - intros (d & -> & E). rewrite E. cbn. apply String.eqb_refl.
Qed.

Lemma is_noise_false msg : is_noise msg = false -> data_plane msg.
Proof.
  unfold is_noise, tagged_in, data_plane. cbn [existsb].
  rewrite !orb_false_iff. intros [[H1 H2] [H3 [H4 _]]].
  rewrite <- !tagged_has_tag. rewrite H1, H2, H3, H4. repeat split; discriminate.
Qed.

Lemma method_response_tagged method d :
  tagged "method" method (PDict d) = true -> method_response method (PDict d) = Some d.
Proof. unfold method_response. intros ->. reflexivity. Qed.

(** ** Filtering *)

Lemma receive_loop_data_plane count start_time effective_timeout :
  forall (k : nat) w msgs l w',
    pending w = k ->
    Forall data_plane msgs ->
    receive_loop count start_time effective_timeout msgs w = (Return l, w') ->
    Forall data_plane l.
Proof.
  induction k as [k IH] using lt_wf_ind.
  intros w msgs l w' Hk Hmsgs. rewrite receive_loop_step.
  destruct (Z.ltb _ count); [|intros [= <- <-]; exact Hmsgs].
  destruct (Z.gtb _ _); [discriminate|].
  destruct (receive_message _ w) as [[msg|e] w1] eqn:E.
  - apply receive_message_consumes in E.
    destruct (is_noise msg) eqn:N; intros H.
    + eapply (IH (pending w1)); [lia|reflexivity|exact Hmsgs|exact H].
    + eapply (IH (pending w1)); [lia|reflexivity| |exact H].
      apply Forall_app; split; [exact Hmsgs|].
      constructor; [apply is_noise_false; exact N|constructor].
  - destruct msgs; [discriminate|]. intros [= <- <-]. exact Hmsgs.
Qed.

(** C4. Whatever the inbound stream interleaves and whatever [count] and
    the timeout are, a list that [receive_messages] returns holds only
    data-plane messages: no element has channel "heartbeat" or "status"
    or a method tag "subscribe" or "unsubscribe". *)
Theorem receive_messages_only_data (w w' : world) (count : Z)
    (override : option Z) (l : list pyval) :
  receive_messages count override w = (Return l, w') ->
  Forall (fun msg =>
            ~ has_tag "channel" "heartbeat" msg /\
            ~ has_tag "channel" "status" msg /\
            ~ has_tag "method" "subscribe" msg /\
            ~ has_tag "method" "unsubscribe" msg) l.
Proof.
  unfold receive_messages. intros H.
  eapply receive_loop_data_plane in H; [exact H|reflexivity|constructor].
Qed.

Lemma receive_messages_only_data_witness :
  fst (receive_messages 2 None (session mixed_stream)) =
    Return [ticker_update; ticker_update] /\
  Forall (fun msg =>
            ~ has_tag "channel" "heartbeat" msg /\
            ~ has_tag "channel" "status" msg /\
            ~ has_tag "method" "subscribe" msg /\
            ~ has_tag "method" "unsubscribe" msg) [ticker_update; ticker_update].
Proof.
  split; [vm_compute; reflexivity|].
  assert (E : receive_messages 2 None (session mixed_stream) =
              (Return [ticker_update; ticker_update],
               snd (receive_messages 2 None (session mixed_stream))))
    by (vm_compute; reflexivity).
  exact (receive_messages_only_data (session mixed_stream)
           (snd (receive_messages 2 None (session mixed_stream)))
           2 None [ticker_update; ticker_update] E).
Defined.

(** ** The timeout setting *)

(** C9. On a connected session [receive_message], called with a timeout
    override, leaves the connection's timeout setting as it found it,
    whether it returns a message or raises (receive failure, decoding
    failure, a refused timeout value). *)
Theorem receive_message_restores_timeout (w w' : world) (c : WebSocket)
    (override : option Z) (res : outcome pyval) :
  ws (self w) = Some c ->
  receive_message override w = (res, w') ->
  exists c', ws (self w') = Some c' /\ sock_timeout c' = sock_timeout c.
Proof.
  intros Hc.
  unfold receive_message, connected.
  destruct w as [n [u t o ms]]; cbn in *; subst o; cbn.
  unfold bind, finally, ws_gettimeout, ws_settimeout, ws_recv, on_ws, set_ws; cbn.
  destruct c as [st sn ib]; cbn.
  destruct override as [t0|]; cbn.
  - destruct (Z.ltb t0 0); cbn.
    + destruct (Z.ltb st 0); cbn; intros [= <- <-]; cbn; eauto.
    + destruct ib as [|[a d b] rest]; cbn.
      * destruct (Z.ltb st 0); cbn; intros [= <- <-]; cbn; eauto.
      * destruct (Z.leb a _); cbn.
        -- destruct d as [[v|text]|]; cbn; unfold ret, raise; cbn;
             destruct (Z.ltb st 0); cbn; intros [= <- <-]; cbn; eauto.
        -- destruct (Z.ltb st 0); cbn; intros [= <- <-]; cbn; eauto.
  - destruct ib as [|[a d b] rest]; cbn.
    + destruct (Z.ltb st 0); cbn; intros [= <- <-]; cbn; eauto.
    + destruct (Z.leb a _); cbn.
      * destruct d as [[v|text]|]; cbn; unfold ret, raise; cbn;
          destruct (Z.ltb st 0); cbn; intros [= <- <-]; cbn; eauto.
      * destruct (Z.ltb st 0); cbn; intros [= <- <-]; cbn; eauto.
Qed.

Lemma receive_message_restores_timeout_witness :
  fst (receive_message (Some 5) (session [garbled 2 "<html>"])) =
    Raise (JSONDecodeError "<html>") /\
  exists c',
    ws (self (snd (receive_message (Some 5) (session [garbled 2 "<html>"])))) = Some c' /\
    sock_timeout c' = 30.
Proof.
  split; [vm_compute; reflexivity|].
  assert (E : receive_message (Some 5) (session [garbled 2 "<html>"]) =
              (Raise (JSONDecodeError "<html>"),
               snd (receive_message (Some 5) (session [garbled 2 "<html>"]))))
    by (vm_compute; reflexivity).
  exact (receive_message_restores_timeout (session [garbled 2 "<html>"])
           (snd (receive_message (Some 5) (session [garbled 2 "<html>"])))
           {| sock_timeout := 30; sent := []; inbox := [garbled 2 "<html>"] |}
           (Some 5) (Raise (JSONDecodeError "<html>")) eq_refl E).
Defined.

(** ** A session without a connection *)

(** C10. On a session whose connection is absent, [subscribe],
    [unsubscribe] and [receive_message] raise [RuntimeError] at once and
    leave the session as it was (nothing sent, nothing received, no
    attribute of the absent handle looked up), and [disconnect] does
    nothing.  A session is in that state when it was never opened and
    after [disconnect] has run. *)
Theorem absent_connection_is_guarded (py_str : pyval -> string) (w : world)
    (channel : string) (symbol : list string) (options : Dict)
    (override : option Z) :
  ws (self w) = None ->
  subscribe py_str channel symbol options w = (Raise not_connected, w) /\
  unsubscribe channel symbol options w = (Raise not_connected, w) /\
  receive_message override w = (Raise not_connected, w) /\
  disconnect w = (Return tt, w) /\
  (forall u t, ws (init u t) = None) /\
  (forall w0, ws (self (snd (disconnect w0))) = None).
Proof.
  intros Hw.
  unfold subscribe, unsubscribe, receive_message, disconnect, connected, raise.
  rewrite Hw. cbn. repeat split.
  intros w0. destruct (ws (self w0)) eqn:E; cbn; [reflexivity|exact E].
Qed.

Lemma absent_connection_is_guarded_witness :
  let w := {| now := 0; self := init "wss://ws.kraken.com/v2" 30 |} in
  subscribe str_sample "ticker" ["BTC/USD"] ∅ w = (Raise not_connected, w) /\
  unsubscribe "ticker" ["BTC/USD"] ∅ w = (Raise not_connected, w) /\
  receive_message (Some 5) w = (Raise not_connected, w) /\
  disconnect w = (Return tt, w) /\
  (forall u t, ws (init u t) = None) /\
  (forall w0, ws (self (snd (disconnect w0))) = None).
Proof.
  exact (absent_connection_is_guarded str_sample
           {| now := 0; self := init "wss://ws.kraken.com/v2" 30 |}
           "ticker" ["BTC/USD"] ∅ (Some 5) eq_refl).
Defined.

(** ** Streams that arrive before the deadline *)

Lemma in_time_app deadline l1 l2 n :
  in_time deadline n (l1 ++ l2) <->
  in_time deadline n l1 /\ in_time deadline (clock_after n l1) l2.
Proof.
  revert n. induction l1 as [|a l1 IH]; intros n; cbn.
  - tauto.
  - rewrite IH. unfold clock_after. cbn. tauto.
Qed.

(** [_wait_for_method] passes over a run of other messages. *)
Lemma wait_loop_skip method start_time effective_timeout skipped :
  forall w c rest,
    ws (self w) = Some c -> 0 <= sock_timeout c ->
    inbox c = skipped ++ rest ->
    Forall (passed_over method) skipped ->
    in_time (start_time + effective_timeout) (now w) skipped ->
    wait_loop method start_time effective_timeout w =
    wait_loop method start_time effective_timeout
      (moved w c (sock_timeout c) (clock_after (now w) skipped) rest).
Proof.
  induction skipped as [|a skipped IH]; intros w c rest Hc Hst Hib Hsk Hin.
  - cbn in *. rewrite <- Hib, moved_here by exact Hc. reflexivity.
  - cbn in Hib, Hin. destruct Hin as (Hn & Ha & Hin).
    apply Forall_cons in Hsk as [(v & Hv & Hm) Hsk].
    rewrite wait_loop_step.
    destruct (receive_message_in_time w c a (skipped ++ rest) v start_time
                effective_timeout Hc Hst Hib Hv Hn Ha) as [-> ->].
    rewrite Hm.
    rewrite (IH _ {| sock_timeout := sock_timeout c; sent := sent c;
                     inbox := skipped ++ rest |} rest);
      [reflexivity|reflexivity|exact Hst|reflexivity|exact Hsk|exact Hin].
Qed.

(** [receive_messages] works through a run of JSON frames that holds
    fewer data messages than it still needs. *)
Lemma receive_loop_prefix count start_time effective_timeout prefix :
  forall w c rest msgs,
    ws (self w) = Some c -> 0 <= sock_timeout c ->
    inbox c = prefix ++ rest ->
    Forall (fun a => is_Some (json_of a)) prefix ->
    in_time (start_time + effective_timeout) (now w) prefix ->
    Z.of_nat (length (msgs ++ collected prefix)) < count ->
    receive_loop count start_time effective_timeout msgs w =
    receive_loop count start_time effective_timeout (msgs ++ collected prefix)
      (moved w c (sock_timeout c) (clock_after (now w) prefix) rest).
Proof.
  induction prefix as [|a prefix IH]; intros w c rest msgs Hc Hst Hib Hjs Hin Hlen.
  - cbn in *. rewrite <- Hib, moved_here by exact Hc. rewrite app_nil_r. reflexivity.
  - cbn in Hib, Hin. destruct Hin as (Hn & Ha & Hin).
    apply Forall_cons in Hjs as [[v Hv] Hjs].
    unfold collected in *. cbn [omap list_omap] in *. rewrite Hv in *.
    cbn [List.filter] in *.
    rewrite receive_loop_step.
    replace (Z.ltb (Z.of_nat (length msgs)) count) with true
      by (rewrite length_app in Hlen; destruct (is_noise v); cbn in Hlen; lia).
    destruct (receive_message_in_time w c a (prefix ++ rest) v start_time
                effective_timeout Hc Hst Hib Hv Hn Ha) as [-> ->].
    destruct (is_noise v); cbn [negb] in *.
    + rewrite (IH _ {| sock_timeout := sock_timeout c; sent := sent c;
                       inbox := prefix ++ rest |} rest msgs);
        [reflexivity|reflexivity|exact Hst|reflexivity|exact Hjs|exact Hin|exact Hlen].
    + rewrite (IH _ {| sock_timeout := sock_timeout c; sent := sent c;
                       inbox := prefix ++ rest |} rest (msgs ++ [v]));
        [rewrite <- app_assoc; reflexivity|reflexivity|exact Hst|reflexivity
        |exact Hjs|exact Hin|rewrite <- app_assoc; exact Hlen].
Qed.

(** The first message tagged [method] is what [_wait_for_method] returns,
    when it and all before it are in time. *)
Lemma wait_for_method_finds method override w c skipped a ack rest :
  ws (self w) = Some c -> 0 <= sock_timeout c ->
  inbox c = skipped ++ a :: rest ->
  Forall (passed_over method) skipped ->
  json_of a = Some (PDict ack) ->
  tagged "method" method (PDict ack) = true ->
  in_time (now w + py_or override (timeout (self w))) (now w) (skipped ++ [a]) ->
  _wait_for_method method override w =
    (Return ack, moved w c (sock_timeout c) (clock_after (now w) (skipped ++ [a])) rest).
Proof.
  intros Hc Hst Hib Hsk Ha Htag Hin.
  apply in_time_app in Hin as [Hin1 Hin2]. cbn in Hin2. destruct Hin2 as (Hn & Hat & _).
  unfold _wait_for_method. cbn zeta.
  rewrite (wait_loop_skip _ _ _ skipped w c (a :: rest) Hc Hst Hib Hsk Hin1).
  rewrite wait_loop_step.
  destruct (receive_message_in_time
              (moved w c (sock_timeout c) (clock_after (now w) skipped) (a :: rest))
              {| sock_timeout := sock_timeout c; sent := sent c; inbox := a :: rest |}
              a rest (PDict ack) (now w) (py_or override (timeout (self w)))
              eq_refl Hst eq_refl Ha Hn Hat) as [-> ->].
  rewrite (method_response_tagged _ _ Htag).
  unfold clock_after. rewrite fold_left_app. reflexivity.
Qed.

(** A frame that is not JSON ends [_wait_for_method] with the decoding
    error, when it and all before it are in time. *)
Lemma wait_for_method_garbled method override w c skipped a text rest :
  ws (self w) = Some c -> 0 <= sock_timeout c ->
  inbox c = skipped ++ a :: rest ->
  Forall (passed_over method) skipped ->
  what a = Frame (NotJson text) ->
  in_time (now w + py_or override (timeout (self w))) (now w) (skipped ++ [a]) ->
  _wait_for_method method override w =
    (Raise (JSONDecodeError text),
     moved w c (sock_timeout c) (clock_after (now w) (skipped ++ [a])) rest).
Proof.
  intros Hc Hst Hib Hsk Ha Hin.
  apply in_time_app in Hin as [Hin1 Hin2]. cbn in Hin2. destruct Hin2 as (Hn & Hat & _).
  unfold _wait_for_method. cbn zeta.
  rewrite (wait_loop_skip _ _ _ skipped w c (a :: rest) Hc Hst Hib Hsk Hin1).
  rewrite wait_loop_step.
  replace (Z.gtb _ _) with false by (cbn; lia).
  rewrite (receive_message_connected _
             (moved w c (sock_timeout c) (clock_after (now w) skipped) (a :: rest))
             {| sock_timeout := sock_timeout c; sent := sent c; inbox := a :: rest |}
             eq_refl Hst).
  unfold received. cbn [from_option id inbox now moved set_ws sock_timeout].
  replace (Z.ltb _ 0) with false by (cbn in *; lia).
  replace (Z.leb (arrives a) _) with true by (cbn in *; lia).
  rewrite Ha. unfold clock_after. rewrite fold_left_app. reflexivity.
Qed.

(** ** Sending the request *)

Lemma passed_over_json method a : passed_over method a -> is_Some (json_of a).
Proof. intros (v & Hv & _). exists v. exact Hv. Qed.

(** A connection whose next arrival is a frame is open. *)
Lemma open_before_frame n c l a rest :
  inbox c = l ++ a :: rest ->
  Forall (fun x => is_Some (json_of x)) l ->
  what a <> Closed ->
  is_closed n c = false.
Proof.
  intros Hib Hl Ha. unfold is_closed. rewrite Hib.
  destruct l as [|x l]; cbn.
  - destruct (what a); [reflexivity|congruence].
  - apply Forall_cons in Hl as [[v Hv] _]. unfold json_of in Hv.
    destruct (what x); [reflexivity|discriminate].
Qed.

Lemma open_before_message n c method skipped a v rest :
  inbox c = skipped ++ a :: rest ->
  Forall (passed_over method) skipped ->
  json_of a = Some v ->
  is_closed n c = false.
Proof.
  intros Hib Hsk Ha. apply (open_before_frame n c skipped a rest Hib).
  - eapply Forall_impl; [exact Hsk|]. intros x. apply passed_over_json.
  - unfold json_of in Ha. destruct (what a); [congruence|discriminate].
Qed.

Lemma open_before_garbled n c method skipped a text rest :
  inbox c = skipped ++ a :: rest ->
  Forall (passed_over method) skipped ->
  what a = Frame (NotJson text) ->
  is_closed n c = false.
Proof.
  intros Hib Hsk Ha. apply (open_before_frame n c skipped a rest Hib).
  - eapply Forall_impl; [exact Hsk|]. intros x. apply passed_over_json.
  - congruence.
Qed.

Lemma open_frames n c :
  Forall (fun x => is_Some (json_of x)) (inbox c) -> is_closed n c = false.
Proof.
  intros H. unfold is_closed. destruct (inbox c) as [|x l]; [reflexivity|].
  apply Forall_cons in H as [[v Hv] _]. unfold json_of in Hv.
  destruct (what x); [reflexivity|discriminate].
Qed.

Lemma unsubscribe_connected channel symbol options w c :
  ws (self w) = Some c -> is_closed (now w) c = false ->
  unsubscribe channel symbol options w =
  _wait_for_method "unsubscribe" None
    (set_ws (Some (sending (json_dumps (request "unsubscribe" channel symbol options)) c)) w).
Proof.
  intros Hc Ho. unfold unsubscribe, connected, bind, ws_send, on_ws. rewrite Hc, Ho. cbn.
  destruct (_wait_for_method _ _ _) as [[ack|e] w']; reflexivity.
Qed.

Lemma subscribe_connected py_str channel symbol options w c :
  ws (self w) = Some c -> is_closed (now w) c = false ->
  subscribe py_str channel symbol options w =
  match _wait_for_method "subscribe" None
          (set_ws (Some (sending (json_dumps (request "subscribe" channel symbol options)) c)) w)
  with
  | (Return ack, w') =>
      if truthy (get ack "success") then (Return ack, w')
      else (Raise (ValueError ("Subscription failed: "
                     +:+ py_str (get_or ack "error" (PStr "Unknown error")))), w')
  | (Raise e, w') => (Raise e, w')
  end.
Proof.
  intros Hc Ho. unfold subscribe, connected, bind, ws_send, on_ws. rewrite Hc, Ho. cbn.
  destruct (_wait_for_method _ _ _) as [[ack|e] w']; [|reflexivity].
  destruct (truthy _); reflexivity.
Qed.

(** On a closed connection both fail at [send], and nothing changes. *)
Lemma unsubscribe_closed channel symbol options w c :
  ws (self w) = Some c -> is_closed (now w) c = true ->
  unsubscribe channel symbol options w = (Raise WebSocketConnectionClosedException, w).
Proof.
  intros Hc Ho. unfold unsubscribe, connected, bind, ws_send, on_ws. rewrite Hc, Ho. cbn.
  destruct w as [n [u t o ms]]; cbn in *; subst o; reflexivity.
Qed.

Lemma subscribe_closed py_str channel symbol options w c :
  ws (self w) = Some c -> is_closed (now w) c = true ->
  subscribe py_str channel symbol options w =
    (Raise WebSocketConnectionClosedException, w).
Proof.
  intros Hc Ho. unfold subscribe, connected, bind, ws_send, on_ws. rewrite Hc, Ho. cbn.
  destruct w as [n [u t o ms]]; cbn in *; subst o; reflexivity.
Qed.

(** [receive_messages] after a run of JSON frames that were all in time
    and hold fewer data messages than asked for. *)
Lemma receive_messages_after_prefix count override w c prefix rest :
  ws (self w) = Some c -> 0 <= sock_timeout c ->
  inbox c = prefix ++ rest ->
  Forall (fun a => is_Some (json_of a)) prefix ->
  in_time (now w + py_or override (timeout (self w))) (now w) prefix ->
  Z.of_nat (length (collected prefix)) < count ->
  receive_messages count override w =
  receive_loop count (now w) (py_or override (timeout (self w))) (collected prefix)
    (moved w c (sock_timeout c) (clock_after (now w) prefix) rest).
Proof.
  intros Hc Hst Hib Hjs Hin Hlen. unfold receive_messages. cbn zeta.
  apply (receive_loop_prefix count (now w) _ prefix w c rest [] Hc Hst Hib Hjs Hin Hlen).
Qed.

(** ** Acknowledgments *)

(** What [subscribe] makes of the acknowledgment it correlates. *)
Lemma subscribe_correlates (py_str : pyval -> string) (w : world)
    (c : WebSocket) (channel : string) (symbol : list string) (options : Dict)
    (skipped : list arrival) (a : arrival) (ack : Dict) (rest : list arrival) :
  ws (self w) = Some c -> 0 <= sock_timeout c ->
  inbox c = skipped ++ a :: rest ->
  Forall (passed_over "subscribe") skipped ->
  json_of a = Some (PDict ack) ->
  has_tag "method" "subscribe" (PDict ack) ->
  in_time (now w + timeout (self w)) (now w) (skipped ++ [a]) ->
  fst (subscribe py_str channel symbol options w) =
    if truthy (get ack "success") then Return ack
    else Raise (ValueError ("Subscription failed: "
                  +:+ py_str (get_or ack "error" (PStr "Unknown error")))).
Proof.
  intros Hc Hst Hib Hsk Ha Htag Hin.
  apply tagged_has_tag in Htag.
  rewrite (subscribe_connected _ _ _ _ _ _ Hc
             (open_before_message _ _ _ _ _ _ _ Hib Hsk Ha)).
  rewrite (wait_for_method_finds "subscribe" None
             (set_ws (Some (sending (json_dumps (request "subscribe" channel symbol options)) c)) w)
             (sending (json_dumps (request "subscribe" channel symbol options)) c)
             skipped a ack rest eq_refl Hst Hib Hsk Ha Htag Hin).
  destruct (truthy _); reflexivity.
Qed.

(** C2. When the first inbound message tagged method "subscribe" (the
    acknowledgment [subscribe] correlates) arrives in time and its
    success flag is false, [subscribe] raises the [ValueError] that
    carries the acknowledgment's error field and returns no value; when
    the flag is true, [subscribe] returns that acknowledgment. *)
Theorem subscribe_surfaces_rejection (py_str : pyval -> string) (w : world)
    (c : WebSocket) (channel : string) (symbol : list string) (options : Dict)
    (skipped : list arrival) (a : arrival) (ack : Dict) (rest : list arrival) :
  ws (self w) = Some c -> 0 <= sock_timeout c ->
  inbox c = skipped ++ a :: rest ->
  Forall (passed_over "subscribe") skipped ->
  json_of a = Some (PDict ack) ->
  has_tag "method" "subscribe" (PDict ack) ->
  in_time (now w + timeout (self w)) (now w) (skipped ++ [a]) ->
  (truthy (get ack "success") = false ->
   fst (subscribe py_str channel symbol options w) =
     Raise (ValueError ("Subscription failed: "
              +:+ py_str (get_or ack "error" (PStr "Unknown error"))))) /\
  (truthy (get ack "success") = true ->
   fst (subscribe py_str channel symbol options w) = Return ack).
Proof.
  intros Hc Hst Hib Hsk Ha Htag Hin.
  rewrite (subscribe_correlates py_str w c channel symbol options skipped a ack rest
             Hc Hst Hib Hsk Ha Htag Hin).
  split; intros ->; reflexivity.
Qed.

Lemma subscribe_surfaces_rejection_witness :
  fst (subscribe str_sample "ticker" ["XYZ/USD"] ∅
         (session [json_frame 1 heartbeat 0;
                   json_frame 2 (PDict (rejection "subscribe")) 0])) =
  Raise (ValueError "Subscription failed: Currency pair not supported XYZ/USD").
Proof.
  assert (Hst : 0 <= 30) by lia.
  assert (Hsk : Forall (passed_over "subscribe") [json_frame 1 heartbeat 0]).
  { repeat constructor. exists heartbeat. split; reflexivity. }
  assert (Htag : has_tag "method" "subscribe" (PDict (rejection "subscribe"))).
  { exists (rejection "subscribe"). split; reflexivity. }
  assert (Hin : in_time (0 + 30) 0
                  ([json_frame 1 heartbeat 0]
                   ++ [json_frame 2 (PDict (rejection "subscribe")) 0])).
  { timing. }
  exact (proj1 (subscribe_surfaces_rejection str_sample
            (session [json_frame 1 heartbeat 0;
                      json_frame 2 (PDict (rejection "subscribe")) 0])
            {| sock_timeout := 30; sent := [];
               inbox := [json_frame 1 heartbeat 0;
                         json_frame 2 (PDict (rejection "subscribe")) 0] |}
            "ticker" ["XYZ/USD"] ∅
            [json_frame 1 heartbeat 0]
            (json_frame 2 (PDict (rejection "subscribe")) 0)
            (rejection "subscribe") [] eq_refl Hst eq_refl Hsk eq_refl Htag Hin)
          eq_refl).
Defined.

Lemma request_method method channel symbol options rq :
  request method channel symbol options = PDict rq ->
  rq !! "method" = Some (PStr method).
Proof. unfold request. intros [= <-]. reflexivity. Qed.

Lemma request_channel method channel symbol options rq params :
  options !! "channel" = None ->
  request method channel symbol options = PDict rq ->
  rq !! "params" = Some (PDict params) ->
  params !! "channel" = Some (PStr channel).
Proof.
  unfold request. intros Hopt [= <-].
  rewrite lookup_insert_ne by discriminate.
  rewrite lookup_insert_eq. intros [= <-].
  rewrite lookup_union_r by exact Hopt.
  apply lookup_insert_eq.
Qed.

(** C6. One [subscribe] followed by its acknowledgment: when the first
    inbound message tagged method "subscribe" is the acknowledgment of
    the request that [subscribe] sent and arrives in time, [subscribe]
    returns it, so that the value returned has method "subscribe" and a
    result that echoes the requested channel. *)
Theorem subscribe_returns_its_acknowledgment (py_str : pyval -> string)
    (w : world) (c : WebSocket) (channel : string) (symbol : list string)
    (options : Dict) (skipped : list arrival) (a : arrival) (ack : Dict)
    (rest : list arrival) :
  ws (self w) = Some c -> 0 <= sock_timeout c ->
  options !! "channel" = None ->
  inbox c = skipped ++ a :: rest ->
  Forall (passed_over "subscribe") skipped ->
  json_of a = Some (PDict ack) ->
  acknowledges (request "subscribe" channel symbol options) ack ->
  in_time (now w + timeout (self w)) (now w) (skipped ++ [a]) ->
  exists returned result,
    fst (subscribe py_str channel symbol options w) = Return returned /\
    returned = ack /\
    get returned "method" = PStr "subscribe" /\
    get returned "result" = PDict result /\
    get result "channel" = PStr channel.
Proof.
  intros Hc Hst Hopt Hib Hsk Ha (rq & params & result & Hrq & Hpar & Hm & Hs & Hres & Hch) Hin.
  rewrite (request_method _ _ _ _ _ Hrq) in Hm.
  rewrite (request_channel _ _ _ _ _ _ Hopt Hrq Hpar) in Hch.
  assert (Htag : has_tag "method" "subscribe" (PDict ack)) by (exists ack; auto).
  exists ack, result.
  rewrite (subscribe_correlates py_str w c channel symbol options skipped a ack rest
             Hc Hst Hib Hsk Ha Htag Hin).
  rewrite Hs. unfold get. rewrite Hm, Hres, Hch. cbn.
  repeat split.
Qed.

Lemma subscribe_returns_its_acknowledgment_witness :
  exists returned result,
    fst (subscribe str_sample "ticker" ["BTC/USD"; "SOL/USD"] ∅ (session mixed_stream)) =
      Return returned /\
    returned = acceptance "subscribe" "ticker" /\
    get returned "method" = PStr "subscribe" /\
    get returned "result" = PDict result /\
    get result "channel" = PStr "ticker".
Proof.
  assert (Hst : 0 <= 30) by lia.
  assert (Hopt : (∅ : Dict) !! "channel" = None) by reflexivity.
  assert (Hsk : Forall (passed_over "subscribe") [json_frame 1 status_message 0]).
  { repeat constructor. exists status_message. split; reflexivity. }
  assert (Hack : acknowledges (request "subscribe" "ticker" ["BTC/USD"; "SOL/USD"] ∅)
                   (acceptance "subscribe" "ticker")).
  { eexists _, _, _. repeat split; reflexivity. }
  assert (Hin : in_time (0 + 30) 0
                  ([json_frame 1 status_message 0]
                   ++ [json_frame 2 (PDict (acceptance "subscribe" "ticker")) 0]))
    by timing.
  exact (subscribe_returns_its_acknowledgment str_sample (session mixed_stream)
           {| sock_timeout := 30; sent := []; inbox := mixed_stream |}
           "ticker" ["BTC/USD"; "SOL/USD"] ∅
           [json_frame 1 status_message 0]
           (json_frame 2 (PDict (acceptance "subscribe" "ticker")) 0)
           (acceptance "subscribe" "ticker")
           [json_frame 3 ticker_update 0; json_frame 4 heartbeat 0;
            json_frame 5 (PDict (acceptance "unsubscribe" "ticker")) 0;
            json_frame 6 ticker_update 1]
           eq_refl Hst Hopt eq_refl Hsk eq_refl Hack Hin).
Defined.

(** C1. What [unsubscribe] does with a rejection: the first inbound
    message tagged method "unsubscribe", when it arrives in time, is
    returned to the caller as it is, whatever its success flag; no
    [ValueError] is raised for a false flag, unlike in [subscribe]. *)
Theorem unsubscribe_returns_any_acknowledgment (w : world) (c : WebSocket)
    (channel : string) (symbol : list string) (options : Dict)
    (skipped : list arrival) (a : arrival) (ack : Dict) (rest : list arrival) :
  ws (self w) = Some c -> 0 <= sock_timeout c ->
  inbox c = skipped ++ a :: rest ->
  Forall (passed_over "unsubscribe") skipped ->
  json_of a = Some (PDict ack) ->
  has_tag "method" "unsubscribe" (PDict ack) ->
  in_time (now w + timeout (self w)) (now w) (skipped ++ [a]) ->
  fst (unsubscribe channel symbol options w) = Return ack.
Proof.
  intros Hc Hst Hib Hsk Ha Htag Hin.
  apply tagged_has_tag in Htag.
  rewrite (unsubscribe_connected _ _ _ _ _ Hc
             (open_before_message _ _ _ _ _ _ _ Hib Hsk Ha)).
  rewrite (wait_for_method_finds "unsubscribe" None
             (set_ws (Some (sending (json_dumps (request "unsubscribe" channel symbol options)) c)) w)
             (sending (json_dumps (request "unsubscribe" channel symbol options)) c)
             skipped a ack rest eq_refl Hst Hib Hsk Ha Htag Hin).
  reflexivity.
Qed.

Lemma unsubscribe_returns_rejection :
  truthy (get (rejection "unsubscribe") "success") = false /\
  fst (unsubscribe "ticker" ["XYZ/USD"] ∅
         (session [json_frame 1 heartbeat 0;
                   json_frame 2 (PDict (rejection "unsubscribe")) 0])) =
  Return (rejection "unsubscribe").
Proof.
  split; [reflexivity|].
  assert (Hst : 0 <= 30) by lia.
  assert (Hsk : Forall (passed_over "unsubscribe") [json_frame 1 heartbeat 0]).
  { repeat constructor. exists heartbeat. split; reflexivity. }
  assert (Htag : has_tag "method" "unsubscribe" (PDict (rejection "unsubscribe"))).
  { exists (rejection "unsubscribe"). split; reflexivity. }
  assert (Hin : in_time (0 + 30) 0
                  ([json_frame 1 heartbeat 0]
                   ++ [json_frame 2 (PDict (rejection "unsubscribe")) 0])).
  { timing. }
  exact (unsubscribe_returns_any_acknowledgment
           (session [json_frame 1 heartbeat 0;
                     json_frame 2 (PDict (rejection "unsubscribe")) 0])
           {| sock_timeout := 30; sent := [];
              inbox := [json_frame 1 heartbeat 0;
                        json_frame 2 (PDict (rejection "unsubscribe")) 0] |}
           "ticker" ["XYZ/USD"] ∅
           [json_frame 1 heartbeat 0]
           (json_frame 2 (PDict (rejection "unsubscribe")) 0)
           (rejection "unsubscribe") [] eq_refl Hst eq_refl Hsk eq_refl Htag Hin).
Defined.

(** ** Deadlines of [receive_messages] *)

Lemma received_json_only r n c :
  0 <= r ->
  Forall (fun a => is_Some (json_of a)) (inbox c) ->
  match received r n c with
  | (Return v, _, ib) => Forall (fun a => is_Some (json_of a)) ib
  | (Raise e, _, _) => is_timeout e = true
  end.
Proof.
  intros Hr Hjs. unfold received.
  replace (Z.ltb r 0) with false by lia.
  destruct (inbox c) as [|a rest]; [reflexivity|].
  apply Forall_cons in Hjs as [[v Hv] Hjs].
  destruct (Z.leb _ _); [|reflexivity].
  rewrite (json_of_frame _ _ Hv). exact Hjs.
Qed.

Lemma receive_loop_floor count start_time effective_timeout :
  forall (k : nat) w c msgs,
    pending w = k ->
    ws (self w) = Some c -> 0 <= sock_timeout c ->
    Forall (fun a => is_Some (json_of a)) (inbox c) ->
    msgs <> [] \/ 1 <= count ->
    match receive_loop count start_time effective_timeout msgs w with
    | (Return l, _) => l <> []
    | (Raise e, _) => is_timeout e = true
    end.
Proof.
  induction k as [k IH] using lt_wf_ind.
  intros w c msgs Hk Hc Hst Hjs Hne. subst k. rewrite receive_loop_step.
  destruct (Z.ltb _ count) eqn:Hcount.
  2:{ destruct Hne as [Hne|Hne]; [exact Hne|].
      apply Z.ltb_ge in Hcount.
      destruct msgs; [cbn [length] in Hcount; lia|discriminate]. }
  destruct (Z.gtb _ _) eqn:Hgt; [reflexivity|].
  pose proof (receive_message_consumes
                (Some (effective_timeout - (now w - start_time))) w) as Hless.
  rewrite (receive_message_connected _ w c Hc Hst) in *.
  pose proof (received_json_only (effective_timeout - (now w - start_time))
                (now w) c ltac:(lia) Hjs) as Hrec.
  cbn [from_option id] in *.
  destruct (received _ _ c) as [[[v|e] n] ib].
  - specialize (Hless v _ eq_refl).
    destruct (is_noise v).
    + eapply (IH _ Hless); [reflexivity|reflexivity|exact Hst|exact Hrec|exact Hne].
    + eapply (IH _ Hless); [reflexivity|reflexivity|exact Hst|exact Hrec|].
      left. destruct msgs; discriminate.
  - destruct msgs; [exact Hrec|discriminate].
Qed.

(** The other way the deadline can pass: while [recv] waits.  Then the
    messages collected so far are returned, and with none collected the
    connection's timeout exception goes to the caller. *)
Lemma receive_messages_partial_on_recv_timeout w c count override prefix rest :
  ws (self w) = Some c -> 0 <= sock_timeout c ->
  inbox c = prefix ++ rest ->
  Forall (fun a => is_Some (json_of a)) prefix ->
  in_time (now w + py_or override (timeout (self w))) (now w) prefix ->
  Z.of_nat (length (collected prefix)) < count ->
  clock_after (now w) prefix <= now w + py_or override (timeout (self w)) ->
  match rest with
  | [] => True
  | a :: _ => now w + py_or override (timeout (self w)) < arrives a
  end ->
  fst (receive_messages count override w) =
    match collected prefix with
    | [] => Raise WebSocketTimeoutException
    | _ :: _ => Return (collected prefix)
    end.
Proof.
  intros Hc Hst Hib Hjs Hin Hlen Hclock Hrest.
  rewrite (receive_messages_after_prefix _ _ _ _ _ _ Hc Hst Hib Hjs Hin Hlen).
  rewrite receive_loop_step.
  replace (Z.ltb _ count) with true by lia.
  replace (Z.gtb _ _) with false by (cbn; lia).
  rewrite (receive_message_connected _
             (moved w c (sock_timeout c) (clock_after (now w) prefix) rest)
             {| sock_timeout := sock_timeout c; sent := sent c; inbox := rest |}
             eq_refl Hst).
  unfold received. cbn [from_option id inbox now moved set_ws sock_timeout].
  replace (Z.ltb _ 0) with false by lia.
  destruct rest as [|a rest].
  - destruct (collected prefix); reflexivity.
  - replace (Z.leb (arrives a) _) with false by lia.
    destruct (collected prefix); reflexivity.
Qed.

(** C5. A call of [receive_messages] for at least one message, on a
    connected session.  If the endpoint delivers only JSON frames, the
    call ends in one of two ways: it returns a list that is not empty, or
    it fails with a timeout error ([TimeoutError] or the connection's
    timeout exception).  And whenever the frames that are in time hold no
    data message and the deadline then passes, at the top of the loop or
    while [recv] waits, the call fails with a timeout error.  So a call
    during which no data message is collected before the deadline does
    not return a value; being a total function, it does not block. *)
Theorem receive_messages_timeout_floor (w : world) (c : WebSocket) (count : Z)
    (override : option Z) :
  ws (self w) = Some c -> 0 <= sock_timeout c ->
  1 <= count ->
  (Forall (fun a => is_Some (json_of a)) (inbox c) ->
   match receive_messages count override w with
   | (Return l, _) => l <> []
   | (Raise e, _) => is_timeout e = true
   end) /\
  (forall prefix rest,
     inbox c = prefix ++ rest ->
     Forall (fun a => is_Some (json_of a)) prefix ->
     collected prefix = [] ->
     in_time (now w + py_or override (timeout (self w))) (now w) prefix ->
     now w + py_or override (timeout (self w)) < clock_after (now w) prefix \/
     match rest with
     | [] => True
     | a :: _ => now w + py_or override (timeout (self w)) < arrives a
     end ->
     exists e,
       fst (receive_messages count override w) = Raise e /\ is_timeout e = true).
Proof.
  intros Hc Hst Hcount. split.
  - intros Hjs. unfold receive_messages.
    eapply receive_loop_floor; eauto.
  - intros prefix rest Hib Hjs Hnone Hin Hlate.
    assert (Hlen : Z.of_nat (length (collected prefix)) < count)
      by (rewrite Hnone; cbn; lia).
    destruct (Z.lt_ge_cases (now w + py_or override (timeout (self w)))
                (clock_after (now w) prefix)) as [Hpast|Hclock].
    + rewrite (receive_messages_after_prefix _ _ _ _ _ _ Hc Hst Hib Hjs Hin Hlen).
      rewrite receive_loop_step.
      replace (Z.ltb _ count) with true by lia.
      replace (Z.gtb _ _) with true by (cbn; lia).
      eexists. split; reflexivity.
    + destruct Hlate as [Hpast|Hrest]; [lia|].
      rewrite (receive_messages_partial_on_recv_timeout _ _ _ _ _ _
                 Hc Hst Hib Hjs Hin Hlen Hclock Hrest).
      rewrite Hnone. eexists. split; reflexivity.
Qed.

Lemma receive_messages_timeout_floor_witness :
  match receive_messages 3 (Some 10)
          (session [json_frame 1 heartbeat 0; json_frame 40 ticker_update 0]) with
  | (Return l, _) => l <> []
  | (Raise e, _) => is_timeout e = true
  end /\
  exists e,
    fst (receive_messages 3 (Some 10)
           (session [json_frame 1 heartbeat 0; json_frame 40 ticker_update 0])) =
      Raise e /\ is_timeout e = true.
Proof.
  assert (Hst : 0 <= 30) by lia.
  assert (Hcount : 1 <= 3) by lia.
  assert (Hjs : Forall (fun a => is_Some (json_of a))
                  [json_frame 1 heartbeat 0; json_frame 40 ticker_update 0]).
  { repeat constructor; eexists; reflexivity. }
  assert (Hjs1 : Forall (fun a => is_Some (json_of a)) [json_frame 1 heartbeat 0]).
  { repeat constructor; eexists; reflexivity. }
  assert (Hin : in_time (0 + 10) 0 [json_frame 1 heartbeat 0]) by timing.
  assert (Hlate : 0 + 10 < clock_after 0 [json_frame 1 heartbeat 0] \/ 0 + 10 < 40)
    by (right; lia).
  pose proof (receive_messages_timeout_floor
                (session [json_frame 1 heartbeat 0; json_frame 40 ticker_update 0])
                {| sock_timeout := 30; sent := [];
                   inbox := [json_frame 1 heartbeat 0; json_frame 40 ticker_update 0] |}
                3 (Some 10) eq_refl Hst Hcount) as [Hall Hnone].
  split.
  - exact (Hall Hjs).
  - exact (Hnone [json_frame 1 heartbeat 0] [json_frame 40 ticker_update 0]
             eq_refl Hjs1 eq_refl Hin Hlate).
Defined.

Example receive_messages_nothing_in_time :
  fst (receive_messages 3 (Some 10)
         (session [json_frame 1 heartbeat 0; json_frame 40 ticker_update 0])) =
  Raise WebSocketTimeoutException.
Proof. reflexivity. Qed.

(** C3. What [receive_messages] does when the deadline passes between two
    frames: after a run of frames that were in time and from which [k]
    data messages, fewer than [count], were collected, a clock found past
    the deadline at the top of the loop makes the call raise
    [TimeoutError], also when [k] is positive; the [k] messages are not
    returned. *)
Theorem receive_messages_late_clock_raises (w : world) (c : WebSocket)
    (count : Z) (override : option Z) (prefix rest : list arrival) :
  ws (self w) = Some c -> 0 <= sock_timeout c ->
  inbox c = prefix ++ rest ->
  Forall (fun a => is_Some (json_of a)) prefix ->
  in_time (now w + py_or override (timeout (self w))) (now w) prefix ->
  Z.of_nat (length (collected prefix)) < count ->
  now w + py_or override (timeout (self w)) < clock_after (now w) prefix ->
  fst (receive_messages count override w) =
    Raise (TimeoutError ("Timeout receiving messages. Got "
             +:+ str_int (Z.of_nat (length (collected prefix)))
             +:+ "/" +:+ str_int count)).
Proof.
  intros Hc Hst Hib Hjs Hin Hlen Hlate.
  rewrite (receive_messages_after_prefix _ _ _ _ _ _ Hc Hst Hib Hjs Hin Hlen).
  rewrite receive_loop_step.
  replace (Z.ltb _ count) with true by lia.
  replace (Z.gtb _ _) with true by (cbn; lia).
  reflexivity.
Qed.

Lemma receive_messages_late_clock_raises_witness :
  collected [json_frame 10 ticker_update 1] = [ticker_update] /\
  fst (receive_messages 2 (Some 10) (session [json_frame 10 ticker_update 1])) =
    Raise (TimeoutError "Timeout receiving messages. Got 1/2").
Proof.
  split; [reflexivity|].
  assert (Hst : 0 <= 30) by lia.
  assert (Hjs : Forall (fun a => is_Some (json_of a)) [json_frame 10 ticker_update 1]).
  { repeat constructor; eexists; reflexivity. }
  assert (Hin : in_time (0 + 10) 0 [json_frame 10 ticker_update 1]) by timing.
  assert (Hlen : Z.of_nat (length (collected [json_frame 10 ticker_update 1])) < 2).
  { vm_compute. reflexivity. }
  assert (Hlate : 0 + 10 < clock_after 0 [json_frame 10 ticker_update 1]).
  { vm_compute. reflexivity. }
  exact (receive_messages_late_clock_raises
           (session [json_frame 10 ticker_update 1])
           {| sock_timeout := 30; sent := []; inbox := [json_frame 10 ticker_update 1] |}
           2 (Some 10) [json_frame 10 ticker_update 1] [] eq_refl Hst eq_refl
           Hjs Hin Hlen Hlate).
Defined.

(** ** Payloads that are not JSON *)

(** C7, as the code has it.  A frame that is not JSON text, reached in
    time after the frames [before].  [receive_message], whatever timeout
    it is called with (an override, or none and then the connection's
    setting), hands the decoding error to the caller, and so do
    [subscribe], [unsubscribe] and [_wait_for_method]; [receive_messages],
    whatever count and timeout it is called with, does so only while it
    has collected nothing, and otherwise returns what it has collected.
    A JSON payload that is there in time is no error whatever tags it
    has or lacks: [receive_message] returns it. *)
Theorem not_json_propagation (py_str : pyval -> string) (w : world)
    (c : WebSocket) (before : list arrival) (a : arrival) (text : string)
    (rest : list arrival) :
  ws (self w) = Some c -> 0 <= sock_timeout c ->
  inbox c = before ++ a :: rest ->
  what a = Frame (NotJson text) ->
  (forall override,
     before = [] ->
     0 <= default (sock_timeout c) override ->
     arrives a <= now w + default (sock_timeout c) override ->
     fst (receive_message override w) = Raise (JSONDecodeError text)) /\
  (forall channel symbol options,
     Forall (passed_over "subscribe") before ->
     in_time (now w + timeout (self w)) (now w) (before ++ [a]) ->
     fst (subscribe py_str channel symbol options w) = Raise (JSONDecodeError text)) /\
  (forall channel symbol options,
     Forall (passed_over "unsubscribe") before ->
     in_time (now w + timeout (self w)) (now w) (before ++ [a]) ->
     fst (unsubscribe channel symbol options w) = Raise (JSONDecodeError text)) /\
  (forall method override,
     Forall (passed_over method) before ->
     in_time (now w + py_or override (timeout (self w))) (now w) (before ++ [a]) ->
     fst (_wait_for_method method override w) = Raise (JSONDecodeError text)) /\
  (forall count override,
     Forall (fun a => is_Some (json_of a)) before ->
     in_time (now w + py_or override (timeout (self w))) (now w) (before ++ [a]) ->
     Z.of_nat (length (collected before)) < count ->
     fst (receive_messages count override w) =
       match collected before with
       | [] => Raise (JSONDecodeError text)
       | _ :: _ => Return (collected before)
       end) /\
  (forall override t v b,
     0 <= default (sock_timeout c) override ->
     t <= now w + default (sock_timeout c) override ->
     fst (receive_message override
            (moved w c (sock_timeout c) (now w) (json_frame t v b :: rest))) =
       Return v).
Proof.
  intros Hc Hst Hib Ha.
  repeat split.
  - intros override -> Hr Hat. cbn in Hib.
    rewrite (receive_message_connected _ w c Hc Hst).
    unfold received. rewrite Hib.
    replace (Z.ltb _ 0) with false by lia.
    replace (Z.leb (arrives a) _) with true by lia.
    rewrite Ha. reflexivity.
  - intros channel symbol options Hsk Hin.
    rewrite (subscribe_connected _ _ _ _ _ _ Hc
               (open_before_garbled _ _ _ _ _ _ _ Hib Hsk Ha)).
    rewrite (wait_for_method_garbled "subscribe" None
               (set_ws (Some (sending (json_dumps (request "subscribe" channel symbol options)) c)) w)
               (sending (json_dumps (request "subscribe" channel symbol options)) c)
               before a text rest eq_refl Hst Hib Hsk Ha Hin).
    reflexivity.
  - intros channel symbol options Hsk Hin.
    rewrite (unsubscribe_connected _ _ _ _ _ Hc
               (open_before_garbled _ _ _ _ _ _ _ Hib Hsk Ha)).
    rewrite (wait_for_method_garbled "unsubscribe" None
               (set_ws (Some (sending (json_dumps (request "unsubscribe" channel symbol options)) c)) w)
               (sending (json_dumps (request "unsubscribe" channel symbol options)) c)
               before a text rest eq_refl Hst Hib Hsk Ha Hin).
    reflexivity.
  - intros method override Hsk Hin.
    rewrite (wait_for_method_garbled method override w c before a text rest
               Hc Hst Hib Hsk Ha Hin).
    reflexivity.
  - intros count override Hjs Hin Hlen.
    apply in_time_app in Hin as [Hin1 Hin2]. cbn in Hin2. destruct Hin2 as (Hn & Hat & _).
    rewrite (receive_messages_after_prefix count override w c before (a :: rest)
               Hc Hst Hib Hjs Hin1 Hlen).
    rewrite receive_loop_step.
    replace (Z.ltb _ count) with true by lia.
    replace (Z.gtb _ _) with false by (cbn in *; lia).
    rewrite (receive_message_connected _
               (moved w c (sock_timeout c) (clock_after (now w) before) (a :: rest))
               {| sock_timeout := sock_timeout c; sent := sent c; inbox := a :: rest |}
               eq_refl Hst).
    unfold received. cbn [from_option id inbox now moved set_ws sock_timeout].
    replace (Z.ltb _ 0) with false by (cbn in *; lia).
    replace (Z.leb (arrives a) _) with true by (cbn in *; lia).
    rewrite Ha. destruct (collected before); reflexivity.
  - intros override t v b Hr Ht.
    rewrite (receive_message_connected _
               (moved w c (sock_timeout c) (now w) (json_frame t v b :: rest))
               {| sock_timeout := sock_timeout c; sent := sent c;
                  inbox := json_frame t v b :: rest |}
               eq_refl Hst).
    unfold received. cbn [inbox now moved set_ws sock_timeout].
    replace (Z.ltb _ 0) with false by lia.
    cbn [json_frame arrives what].
    replace (Z.leb t _) with true by lia.
    reflexivity.
Qed.

Lemma not_json_propagation_witness :
  fst (receive_messages 3 (Some 10)
         (session [json_frame 1 heartbeat 0; json_frame 2 ticker_update 0;
                   garbled 3 "<html>"])) =
  Return [ticker_update].
Proof.
  assert (Hst : 0 <= 30) by lia.
  assert (Hin : in_time (0 + 10) 0
                  ([json_frame 1 heartbeat 0; json_frame 2 ticker_update 0]
                   ++ [garbled 3 "<html>"])) by timing.
  assert (Hjs : Forall (fun a => is_Some (json_of a))
                  [json_frame 1 heartbeat 0; json_frame 2 ticker_update 0]).
  { repeat constructor; eexists; reflexivity. }
  assert (Hlen : Z.of_nat (length (collected [json_frame 1 heartbeat 0;
                                              json_frame 2 ticker_update 0])) < 3).
  { vm_compute. reflexivity. }
  exact (proj1 (proj2 (proj2 (proj2 (proj2
           (not_json_propagation str_sample
              (session [json_frame 1 heartbeat 0; json_frame 2 ticker_update 0;
                        garbled 3 "<html>"])
              {| sock_timeout := 30; sent := [];
                 inbox := [json_frame 1 heartbeat 0; json_frame 2 ticker_update 0;
                           garbled 3 "<html>"] |}
              [json_frame 1 heartbeat 0; json_frame 2 ticker_update 0]
              (garbled 3 "<html>") "<html>" [] eq_refl Hst eq_refl eq_refl)))))
           3 (Some 10) Hjs Hin Hlen).
Defined.

(** C7 as stated fails: a frame that is not JSON, met after a data
    message was collected, is swallowed by [receive_messages], which
    returns a value; and a JSON payload with no tag at all is handed over
    by [receive_message] as a message, not turned into an error. *)
Lemma not_json_swallowed_after_data :
  fst (receive_messages 2 None
         (session [json_frame 1 ticker_update 0; garbled 2 "<html>"])) =
    Return [ticker_update] /\
  fst (receive_message None (session [json_frame 1 (PDict ∅) 0])) = Return (PDict ∅).
Proof. split; reflexivity. Qed.

(** ** CRC-32 stays within 32 bits *)

Example crc32_check_value : crc32 (encode_utf8 "123456789") = 0xCBF43926.
Proof. vm_compute. reflexivity. Qed.

Example crc32_empty : crc32 [] = 0.
Proof. reflexivity. Qed.

Lemma lxor_32 a b :
  0 <= a < 2 ^ 32 -> 0 <= b < 2 ^ 32 -> 0 <= Z.lxor a b < 2 ^ 32.
Proof.
  intros Ha Hb.
  assert (Hnn : 0 <= Z.lxor a b) by (apply Z.lxor_nonneg; lia).
  split; [exact Hnn|].
  destruct (Z.eq_dec (Z.lxor a b) 0) as [->|Hz]; [lia|].
  apply Z.log2_lt_pow2; [lia|].
  pose proof (Z.log2_lxor a b (proj1 Ha) (proj1 Hb)) as Hlog.
  assert (Hla : Z.log2 a < 32).
  { destruct (Z.eq_dec a 0) as [->|Hne]; [cbn; lia|apply Z.log2_lt_pow2; lia]. }
  assert (Hlb : Z.log2 b < 32).
  { destruct (Z.eq_dec b 0) as [->|Hne]; [cbn; lia|apply Z.log2_lt_pow2; lia]. }
  lia.
Qed.

Lemma crc_shift_32 c : 0 <= c < 2 ^ 32 -> 0 <= crc_shift c < 2 ^ 32.
Proof.
  intros Hc. unfold crc_shift.
  assert (Hs : 0 <= Z.shiftr c 1 < 2 ^ 32).
  { rewrite Z.shiftr_div_pow2 by lia. change (2 ^ 1) with 2.
    split; [apply Z.div_pos; lia|].
    apply Z.div_lt_upper_bound; lia. }
  destruct (Z.testbit c 0); [|exact Hs].
  apply lxor_32; [exact Hs|]. unfold crc_poly. lia.
Qed.

Lemma crc_byte_32 crc byte :
  0 <= crc < 2 ^ 32 -> 0 <= byte < 2 ^ 32 -> 0 <= crc_byte crc byte < 2 ^ 32.
Proof.
  intros Hc Hb. unfold crc_byte.
  pose proof (lxor_32 _ _ Hc Hb) as H.
  cbn [Nat.iter]. repeat apply crc_shift_32. exact H.
Qed.

Lemma encode_utf8_bytes s : Forall (fun byte => 0 <= byte < 2 ^ 32) (encode_utf8 s).
Proof.
  unfold encode_utf8. apply Forall_map, Forall_forall. intros ch _.
  pose proof (nat_ascii_bounded ch). cbn. lia.
Qed.

Lemma crc32_32 data :
  Forall (fun byte => 0 <= byte < 2 ^ 32) data -> 0 <= crc32 data < 2 ^ 32.
Proof.
  intros Hdata. unfold crc32.
  apply lxor_32; [|lia].
  assert (Hinit : 0 <= 0xFFFFFFFF < 2 ^ 32) by lia.
  revert Hinit. generalize 0xFFFFFFFF as crc.
  induction Hdata as [|byte data Hb _ IH]; intros crc Hcrc; cbn [fold_left].
  - exact Hcrc.
  - apply IH, crc_byte_32; assumption.
Qed.

(** ** The loop builds the interleaving *)

Section ChecksumFacts.

Variable py_str : pyval -> string.

Lemma checksum_body_row top_asks top_bids parts i :
  checksum_body py_str top_asks top_bids parts i = parts ++ row py_str top_asks top_bids i.
Proof.
  unfold checksum_body, row.
  destruct (top_asks !! i), (top_bids !! i);
    rewrite ?app_nil_r, <- ?app_assoc; reflexivity.
Qed.

Lemma checksum_loop_rows top_asks top_bids indices parts :
  fold_left (checksum_body py_str top_asks top_bids) indices parts =
  parts ++ flat_map (row py_str top_asks top_bids) indices.
Proof.
  revert parts. induction indices as [|i indices IH]; intros parts; cbn.
  - rewrite app_nil_r. reflexivity.
  - rewrite IH, checksum_body_row, <- app_assoc. reflexivity.
Qed.

Lemma rows_shift ask asks bid bids n :
  flat_map (row py_str (ask :: asks) (bid :: bids)) (seq 1 n) =
  flat_map (row py_str asks bids) (seq 0 n).
Proof.
  rewrite <- seq_shift, flat_map_concat_map, map_map, <- flat_map_concat_map.
  reflexivity.
Qed.

Lemma rows_bids_only bids :
  flat_map (row py_str [] bids) (seq 0 (length bids)) = flat_map (level_parts py_str) bids.
Proof.
  induction bids as [|bid bids IH]; [reflexivity|].
  cbn [length seq flat_map]. rewrite <- IH.
  rewrite <- seq_shift, !flat_map_concat_map, map_map. reflexivity.
Qed.

Lemma rows_asks_shift ask asks n :
  flat_map (row py_str (ask :: asks) []) (seq 1 n) =
  flat_map (row py_str asks []) (seq 0 n).
Proof.
  rewrite <- seq_shift, flat_map_concat_map, map_map, <- flat_map_concat_map.
  reflexivity.
Qed.

Lemma rows_interleaved asks :
  forall bids,
    flat_map (row py_str asks bids) (seq 0 (Nat.max (length asks) (length bids))) =
    interleaved py_str asks bids.
Proof.
  induction asks as [|ask asks IH]; intros bids.
  - cbn [length Nat.max interleaved]. apply rows_bids_only.
  - destruct bids as [|bid bids].
    + cbn [length Nat.max seq flat_map interleaved].
      rewrite rows_asks_shift.
      specialize (IH []). cbn [length] in IH. rewrite Nat.max_0_r in IH.
      rewrite IH. unfold row. cbn. reflexivity.
    + cbn [length Nat.max seq flat_map interleaved].
      rewrite rows_shift, IH. unfold row. cbn.
      rewrite <- ?app_assoc. reflexivity.
Qed.

Lemma slice_to_top {A} (l : list A) depth :
  0 <= depth -> slice_to l depth = take (Z.to_nat depth) l.
Proof. intros H. unfold slice_to. replace (Z.leb 0 depth) with true by lia. reflexivity. Qed.

End ChecksumFacts.

(** C8. For every book and every depth that counts levels,
    [calculate_book_checksum] is the CRC-32 of the string that interleaves,
    level by level over the top [depth] levels, each ask's price and
    quantity strings and each bid's, decimal points removed; its result
    lies in [0, 2^32); and the test step that validates a received
    checksum gives the same verdict whatever the book, that is whatever
    value is recomputed: the two are never compared. *)
Theorem book_checksum_is_crc32_of_interleaving (py_str : pyval -> string)
    (bids asks : list level) (depth : Z) :
  (0 <= depth ->
   calculate_book_checksum py_str bids asks depth =
     checksum_of_top_levels py_str bids asks depth) /\
  0 <= calculate_book_checksum py_str bids asks depth < 2 ^ 32 /\
  (forall checksum violations bids' asks',
     checksum_validation py_str checksum bids asks violations =
     checksum_validation py_str checksum bids' asks' violations).
Proof.
  split; [|split; [split|]].
  - intros Hdepth. unfold calculate_book_checksum, checksum_of_top_levels. cbn zeta.
    rewrite !slice_to_top by exact Hdepth.
    rewrite checksum_loop_rows, rows_interleaved. cbn [app].
    change 0xFFFFFFFF with (Z.ones 32).
    pose proof (crc32_32 _ (encode_utf8_bytes
                   (join (interleaved py_str (take (Z.to_nat depth) asks)
                                      (take (Z.to_nat depth) bids))))) as H.
    apply Z.land_ones_low; [lia|].
    destruct (Z.eq_dec (crc32 (encode_utf8
                (join (interleaved py_str (take (Z.to_nat depth) asks)
                                   (take (Z.to_nat depth) bids))))) 0) as [->|Hne];
      [cbn; lia|apply Z.log2_lt_pow2; lia].
  - unfold calculate_book_checksum. cbn zeta. apply Z.land_nonneg. right. lia.
  - unfold calculate_book_checksum. cbn zeta.
    change 0xFFFFFFFF with (Z.ones 32).
    rewrite Z.land_ones by lia. apply Z.mod_pos_bound. lia.
  - intros checksum violations bids' asks'.
    unfold checksum_validation. destruct checksum; reflexivity.
Qed.

Lemma book_checksum_is_crc32_of_interleaving_witness :
  join (interleaved str_sample (take 10 sample_asks) (take 10 sample_bids)) =
    "500001054999991255000102" /\
  calculate_book_checksum str_sample sample_bids sample_asks 10 = 2245305139 /\
  checksum_of_top_levels str_sample sample_bids sample_asks 10 = 2245305139 /\
  checksum_validation str_sample (PInt 1) sample_bids sample_asks [] = [].
Proof.
  assert (Hdepth : 0 <= 10) by lia.
  pose proof (proj1 (book_checksum_is_crc32_of_interleaving str_sample
                       sample_bids sample_asks 10) Hdepth) as H.
  split; [vm_compute; reflexivity|].
  split; [vm_compute; reflexivity|].
  split; [rewrite <- H; vm_compute; reflexivity|reflexivity].
Defined.

(** * Further properties of the session *)

(** ** The context manager *)

(** X1. A [with KrakenWebSocketClient(...) as client] block leaves the
    session without a connection on every exit path, and its outcome is
    the body's: a value is passed on, an exception is not suppressed. *)
Theorem with_client_releases (A : Type) (feed : list arrival) (body : M A)
    (w : world) :
  ws (self (snd (with_client feed body w))) = None /\
  fst (with_client feed body w) =
    match fst (body (snd (connect feed w))) with
    | Return a => Return (Some a)
    | Raise e => Raise e
    end.
Proof.
  unfold with_client, py_with, __enter__, __exit__, bind, ret. cbn.
  destruct (body _) as [[a|e] w2]; cbn;
    unfold disconnect, connected; destruct (ws (self w2)) eqn:E; cbn; auto.
Qed.

(** ** What the receiving operations leave alone *)

Lemma kept_refl w : kept w w.
Proof.
  unfold kept. repeat split. destruct (ws (self w)) as [c|]; [|reflexivity].
  exists c, []. auto.
Qed.

Lemma kept_trans w1 w2 w3 : kept w1 w2 -> kept w2 w3 -> kept w1 w3.
Proof.
  unfold kept. intros (Hu & Ht & Hm & H12) (Hu' & Ht' & Hm' & H23).
  repeat split; try congruence.
  destruct (ws (self w1)) as [c1|].
  - destruct H12 as (c2 & took & E2 & Hst & Hsent & Hib). rewrite E2 in H23.
    destruct H23 as (c3 & took' & E3 & Hst' & Hsent' & Hib').
    exists c3, (took ++ took'). repeat split; try congruence.
    rewrite Hib, Hib', app_assoc. reflexivity.
  - rewrite H12 in H23. exact H23.
Qed.

Lemma receive_message_kept override w res w' :
  receive_message override w = (res, w') -> kept w w'.
Proof.
  unfold receive_message, connected, kept.
  destruct w as [n [u t [[st sn ib]|] ms]]; cbn;
    [|intros [= <- <-]; cbn; auto].
  unfold bind, finally, ws_gettimeout, ws_settimeout, ws_recv, on_ws, set_ws,
    json_loads, ret, raise; cbn.
  destruct override as [t0|]; cbn;
    repeat match goal with
           | |- context [Z.ltb ?x ?y] => destruct (Z.ltb x y); cbn
           | |- context [Z.leb ?x ?y] => destruct (Z.leb x y); cbn
           | |- context [match ib with _ => _ end] =>
               destruct ib as [|[? [[?|?]|] ?] ?]; cbn
           end;
    intros [= <- <-]; cbn; repeat split;
    eexists _, _; repeat split;
    first [instantiate (1 := []); reflexivity | instantiate (1 := [_]); reflexivity].
Qed.

Lemma wait_loop_kept method start_time effective_timeout :
  forall (k : nat) w res w',
    pending w = k ->
    wait_loop method start_time effective_timeout w = (res, w') -> kept w w'.
Proof.
  induction k as [k IH] using lt_wf_ind.
  intros w res w' Hk. subst k. rewrite wait_loop_step.
  destruct (Z.gtb _ _); [intros [= <- <-]; apply kept_refl|].
  destruct (receive_message _ w) as [[msg|e] w1] eqn:E.
  - pose proof (receive_message_kept _ _ _ _ E) as K.
    apply receive_message_consumes in E.
    destruct (method_response method msg).
    + intros [= <- <-]. exact K.
    + intros H. eapply kept_trans; [exact K|].
      eapply (IH _ E); [reflexivity|exact H].
  - intros [= <- <-]. eapply receive_message_kept; exact E.
Qed.

Lemma receive_loop_kept count start_time effective_timeout :
  forall (k : nat) w msgs res w',
    pending w = k ->
    receive_loop count start_time effective_timeout msgs w = (res, w') -> kept w w'.
Proof.
  induction k as [k IH] using lt_wf_ind.
  intros w msgs res w' Hk. subst k. rewrite receive_loop_step.
  destruct (Z.ltb _ count); [|intros [= <- <-]; apply kept_refl].
  destruct (Z.gtb _ _); [intros [= <- <-]; apply kept_refl|].
  destruct (receive_message _ w) as [[msg|e] w1] eqn:E.
  - pose proof (receive_message_kept _ _ _ _ E) as K.
    apply receive_message_consumes in E.
    destruct (is_noise msg); intros H;
      (eapply kept_trans; [exact K|]); eapply (IH _ E); [reflexivity|exact H|reflexivity|exact H].
  - pose proof (receive_message_kept _ _ _ _ E) as K.
    destruct msgs; intros [= <- <-]; exact K.
Qed.

Lemma wait_for_method_kept method override w res w' :
  _wait_for_method method override w = (res, w') -> kept w w'.
Proof. unfold _wait_for_method. eapply wait_loop_kept. reflexivity. Qed.

(** X2. [receive_message], [receive_messages] and [_wait_for_method]
    change nothing but the clock and the front of the inbox, whatever
    they return or raise: the url, the timeout and the [messages] buffer
    of the client, the timeout setting of the connection and what was
    sent through it are as before, a session without a connection stays
    so, and the frames left are a suffix of the frames there were. *)
Theorem receiving_keeps_the_session (w : world) :
  (forall override res w',
     receive_message override w = (res, w') -> kept w w') /\
  (forall count override res w',
     receive_messages count override w = (res, w') -> kept w w') /\
  (forall method override res w',
     _wait_for_method method override w = (res, w') -> kept w w').
Proof.
  split; [|split].
  - intros override res w'. apply receive_message_kept.
  - intros count override res w'. unfold receive_messages.
    eapply receive_loop_kept. reflexivity.
  - intros method override res w'. apply wait_for_method_kept.
Qed.

Lemma receiving_keeps_the_session_witness :
  kept (session mixed_stream)
       (snd (receive_messages 2 None (session mixed_stream))).
Proof.
  exact (proj1 (proj2 (receiving_keeps_the_session (session mixed_stream)))
           2 None _ _ (surjective_pairing _)).
Defined.





(** ** What comes back *)

Lemma method_response_some method msg d :
  method_response method msg = Some d ->
  msg = PDict d /\ d !! "method" = Some (PStr method).
Proof.
  unfold method_response. destruct msg as [| | | | | |d']; try discriminate.
  destruct (tagged "method" method (PDict d')) eqn:T; [|discriminate].
  intros [= ->]. split; [reflexivity|].
  apply tagged_has_tag in T as (d0 & [= <-] & H). exact H.
Qed.

Lemma wait_loop_tagged method start_time effective_timeout :
  forall (k : nat) w d w',
    pending w = k ->
    wait_loop method start_time effective_timeout w = (Return d, w') ->
    d !! "method" = Some (PStr method).
Proof.
  induction k as [k IH] using lt_wf_ind.
  intros w d w' Hk. subst k. rewrite wait_loop_step.
  destruct (Z.gtb _ _); [discriminate|].
  destruct (receive_message _ w) as [[msg|e] w1] eqn:E; [|discriminate].
  apply receive_message_consumes in E.
  destruct (method_response method msg) as [d0|] eqn:R.
  - intros [= <- <-]. apply method_response_some in R as [_ H]. exact H.
  - intros H. eapply (IH _ E); [reflexivity|exact H].
Qed.

(** X4. Whatever the inbound stream, a value that [_wait_for_method]
    returns is a dict whose method tag is the method waited for; so what
    [unsubscribe] returns is tagged "unsubscribe", and what [subscribe]
    returns is tagged "subscribe" and has a true success flag. *)
Theorem returned_acknowledgment_is_tagged (w : world) :
  (forall method override d w',
     _wait_for_method method override w = (Return d, w') ->
     d !! "method" = Some (PStr method)) /\
  (forall py_str channel symbol options ack w',
     subscribe py_str channel symbol options w = (Return ack, w') ->
     ack !! "method" = Some (PStr "subscribe") /\
     truthy (get ack "success") = true) /\
  (forall channel symbol options ack w',
     unsubscribe channel symbol options w = (Return ack, w') ->
     ack !! "method" = Some (PStr "unsubscribe")).
Proof.
  assert (Hwait : forall w method override d w',
            _wait_for_method method override w = (Return d, w') ->
            d !! "method" = Some (PStr method)).
  { intros w0 method override d w'. unfold _wait_for_method.
    eapply wait_loop_tagged. reflexivity. }
  split; [apply Hwait|split].
  - intros py_str channel symbol options ack w'.
    destruct (ws (self w)) as [c|] eqn:Hc.
    + destruct (is_closed (now w) c) eqn:Ho;
        [rewrite (subscribe_closed _ _ _ _ _ _ Hc Ho); discriminate|].
      rewrite (subscribe_connected _ _ _ _ _ _ Hc Ho).
      destruct (_wait_for_method _ _ _) as [[ack0|e] w1] eqn:E; [|discriminate].
      destruct (truthy (get ack0 "success")) eqn:T; [|discriminate].
      intros [= <- <-]. split; [eapply Hwait; exact E|exact T].
    + unfold subscribe, connected. rewrite Hc. discriminate.
  - intros channel symbol options ack w'.
    destruct (ws (self w)) as [c|] eqn:Hc.
    + destruct (is_closed (now w) c) eqn:Ho;
        [rewrite (unsubscribe_closed _ _ _ _ _ Hc Ho); discriminate|].
      rewrite (unsubscribe_connected _ _ _ _ _ Hc Ho). apply Hwait.
    + unfold unsubscribe, connected. rewrite Hc. discriminate.
Qed.

Lemma returned_acknowledgment_is_tagged_witness :
  fst (subscribe str_sample "ticker" ["BTC/USD"] ∅ (session mixed_stream)) =
    Return (acceptance "subscribe" "ticker") /\
  acceptance "subscribe" "ticker" !! "method" = Some (PStr "subscribe") /\
  truthy (get (acceptance "subscribe" "ticker") "success") = true.
Proof.
  assert (E : subscribe str_sample "ticker" ["BTC/USD"] ∅ (session mixed_stream) =
              (Return (acceptance "subscribe" "ticker"),
               snd (subscribe str_sample "ticker" ["BTC/USD"] ∅
                      (session mixed_stream))))
    by (vm_compute; reflexivity).
  split; [rewrite E; reflexivity|].
  exact (proj1 (proj2 (returned_acknowledgment_is_tagged (session mixed_stream)))
           str_sample "ticker" ["BTC/USD"] ∅ _ _ E).
Defined.

Lemma receive_loop_bounded count start_time effective_timeout :
  forall (k : nat) w msgs l w',
    pending w = k ->
    receive_loop count start_time effective_timeout msgs w = (Return l, w') ->
    Z.of_nat (length l) <= Z.max count (Z.of_nat (length msgs)).
Proof.
  induction k as [k IH] using lt_wf_ind.
  intros w msgs l w' Hk. subst k. rewrite receive_loop_step.
  destruct (Z.ltb _ count) eqn:Hcount; [|intros [= <- <-]; lia].
  apply Z.ltb_lt in Hcount.
  destruct (Z.gtb _ _); [discriminate|].
  destruct (receive_message _ w) as [[msg|e] w1] eqn:E.
  - apply receive_message_consumes in E.
    destruct (is_noise msg); intros H;
      apply (IH _ E _ _ _ _ eq_refl) in H;
      rewrite ?length_app in H; cbn [length] in H; lia.
  - destruct msgs; [discriminate|]. intros [= <- <-]. lia.
Qed.

(** X5. [receive_messages] never returns more than [count] messages, and
    for a [count] that is not positive it returns the empty list at once
    without touching the session. *)
Theorem receive_messages_at_most_count (w : world) (count : Z)
    (override : option Z) :
  (forall l w',
     receive_messages count override w = (Return l, w') ->
     Z.of_nat (length l) <= Z.max 0 count) /\
  (count <= 0 -> receive_messages count override w = (Return [], w)).
Proof.
  unfold receive_messages. split.
  - intros l w' H. apply (receive_loop_bounded _ _ _ _ _ _ _ _ eq_refl) in H.
    cbn [length] in H. lia.
  - intros Hcount. rewrite receive_loop_step.
    replace (Z.ltb _ count) with false
      by (symmetry; apply Z.ltb_ge; cbn [length]; lia).
    reflexivity.
Qed.

Lemma receive_messages_at_most_count_witness :
  receive_messages 0 None (session mixed_stream) =
    (Return [], session mixed_stream) /\
  Z.of_nat (length [ticker_update; ticker_update]) <= Z.max 0 2.
Proof.
  assert (E : receive_messages 2 None (session mixed_stream) =
              (Return [ticker_update; ticker_update],
               snd (receive_messages 2 None (session mixed_stream))))
    by (vm_compute; reflexivity).
  split.
  - exact (proj2 (receive_messages_at_most_count (session mixed_stream) 0 None)
             ltac:(lia)).
  - exact (proj1 (receive_messages_at_most_count (session mixed_stream) 2 None)
             _ _ E).
Defined.

(** ** Nothing is lost, nothing waits past the deadline *)

(** The ways one [receive_message] can go on a connected session. *)
Lemma received_cases r n c res n' ib :
  received r n c = (res, n', ib) ->
  (exists a,
     inbox c = a :: ib /\ n' = tick n a /\ 0 <= r /\ arrives a <= n + r /\
     ((exists v, json_of a = Some v /\ res = Return v) \/
      (exists text, json_of a = None /\ res = Raise (JSONDecodeError text)))) \/
  (ib = inbox c /\
   exists e, res = Raise e /\
     ((r < 0 /\ n' = n) \/
      (0 <= r /\ n' = n + r /\ e = WebSocketTimeoutException) \/
      (0 <= r /\ exists a rest,
         inbox c = a :: rest /\ arrives a <= n + r /\ n' = tick n a /\
         json_of a = None))).
Proof.
  unfold received.
  destruct (Z.ltb r 0) eqn:Hr.
  { intros [= <- <- <-]. right. split; [reflexivity|]. eexists. split; [reflexivity|].
    left. lia. }
  destruct (inbox c) as [|a rest].
  { intros [= <- <- <-]. right. split; [reflexivity|]. eexists. split; [reflexivity|].
    right. left. repeat split; lia. }
  destruct (Z.leb (arrives a) (n + r)) eqn:Ha.
  2:{ intros [= <- <- <-]. right. split; [reflexivity|]. eexists. split; [reflexivity|].
      right. left. repeat split; lia. }
  unfold json_of. destruct (what a) as [[v|text]|] eqn:W; intros [= <- <- <-].
  - left. exists a. repeat split; try lia. left. rewrite W. eauto.
  - left. exists a. repeat split; try lia. right. rewrite W. eauto.
  - right. split; [reflexivity|]. eexists. split; [reflexivity|].
    right. right. split; [lia|]. exists a, rest. rewrite W. repeat split; lia.
Qed.

Lemma collected_cons a l :
  collected (a :: l) =
  match json_of a with
  | Some v => if is_noise v then collected l else v :: collected l
  | None => collected l
  end.
Proof.
  unfold collected. cbn [omap list_omap].
  destruct (json_of a) as [v|]; [|reflexivity].
  cbn [List.filter]. destruct (is_noise v); reflexivity.
Qed.

Lemma receive_loop_conserves count start_time effective_timeout :
  forall (k : nat) w c msgs l w',
    pending w = k ->
    ws (self w) = Some c -> 0 <= sock_timeout c ->
    receive_loop count start_time effective_timeout msgs w = (Return l, w') ->
    exists consumed c',
      ws (self w') = Some c' /\
      inbox c = consumed ++ inbox c' /\
      l = msgs ++ collected consumed.
Proof.
  induction k as [k IH] using lt_wf_ind.
  intros w c msgs l w' Hk Hc Hst. subst k. rewrite receive_loop_step.
  destruct (Z.ltb _ count).
  2:{ intros [= <- <-]. exists [], c. rewrite app_nil_r. auto. }
  destruct (Z.gtb _ _); [discriminate|].
  pose proof (receive_message_consumes
                (Some (effective_timeout - (now w - start_time))) w) as Hless.
  rewrite (receive_message_connected _ w c Hc Hst) in *.
  cbn [from_option id] in *.
  destruct (received _ _ c) as [[res n] ib] eqn:R.
  apply received_cases in R.
  destruct res as [v|e].
  - specialize (Hless v _ eq_refl).
    destruct R as [(a & Hib & _ & _ & _ & [(v' & Hv & [= <-])|(? & _ & [=])])
                  |(_ & ? & [=] & _)].
    destruct (is_noise v) eqn:N; intros H;
      apply (IH _ Hless _ {| sock_timeout := sock_timeout c; sent := sent c;
                             inbox := ib |} _ _ _ eq_refl eq_refl Hst) in H;
      destruct H as (consumed & c' & E & Hib' & ->);
      exists (a :: consumed), c'; cbn [inbox] in Hib';
      rewrite collected_cons, Hv, N, Hib, Hib', <- ?app_assoc; auto.
  - destruct msgs as [|m msgs]; [discriminate|]. intros [= <- <-].
    destruct R as [(a & Hib & _ & _ & _ & [(? & _ & [=])|(text & Hnone & _)])
                  |(-> & _)].
    + exists [a], {| sock_timeout := sock_timeout c; sent := sent c; inbox := ib |}.
      rewrite collected_cons, Hnone. unfold collected. cbn.
      rewrite app_nil_r. auto.
    + exists [], {| sock_timeout := sock_timeout c; sent := sent c; inbox := inbox c |}.
      unfold collected. cbn. rewrite app_nil_r. auto.
Qed.

(** X6. On a connected session with a valid timeout setting, the list
    that [receive_messages] returns is, in arrival order, exactly the JSON
    messages that are not control-plane noise among the frames the call
    took from the inbox, and the frames it did not take are left in place:
    no message is dropped, repeated or reordered. *)
Theorem receive_messages_conserves (w w' : world) (c : WebSocket) (count : Z)
    (override : option Z) (l : list pyval) :
  ws (self w) = Some c -> 0 <= sock_timeout c ->
  receive_messages count override w = (Return l, w') ->
  exists consumed c',
    ws (self w') = Some c' /\
    inbox c = consumed ++ inbox c' /\
    l = collected consumed.
Proof.
  intros Hc Hst H. unfold receive_messages in H.
  apply (receive_loop_conserves _ _ _ _ _ _ _ _ _ eq_refl Hc Hst) in H.
  exact H.
Qed.

Lemma receive_messages_conserves_witness :
  exists consumed c',
    ws (self (snd (receive_messages 1 None (session mixed_stream)))) = Some c' /\
    mixed_stream = consumed ++ inbox c' /\
    [ticker_update] = collected consumed.
Proof.
  assert (Hst : 0 <= 30) by lia.
  assert (E : receive_messages 1 None (session mixed_stream) =
              (Return [ticker_update],
               snd (receive_messages 1 None (session mixed_stream))))
    by (vm_compute; reflexivity).
  exact (receive_messages_conserves (session mixed_stream)
           (snd (receive_messages 1 None (session mixed_stream)))
           {| sock_timeout := 30; sent := []; inbox := mixed_stream |}
           1 None [ticker_update] eq_refl Hst E).
Defined.

(** One turn of a loop that has not reached its deadline: the clock moves
    on, and not past the deadline by more than the delay [eps] that
    follows a frame. *)
Lemma receive_message_within eps start_time effective_timeout w c res w1 :
  ws (self w) = Some c -> 0 <= sock_timeout c -> 0 <= eps ->
  Forall (fun a => Z.of_N (busy a) <= eps) (inbox c) ->
  Z.gtb (now w - start_time) effective_timeout = false ->
  receive_message (Some (effective_timeout - (now w - start_time))) w = (res, w1) ->
  now w <= now w1 <= start_time + effective_timeout + eps /\
  exists c1,
    ws (self w1) = Some c1 /\ sock_timeout c1 = sock_timeout c /\
    Forall (fun a => Z.of_N (busy a) <= eps) (inbox c1).
Proof.
  intros Hc Hst Heps Hbusy Hguard.
  rewrite (receive_message_connected _ w c Hc Hst). cbn [from_option id].
  destruct (received _ _ c) as [[res0 n] ib] eqn:R.
  intros [= <- <-]. apply received_cases in R. cbn.
  destruct R as [(a & Hib & -> & Hr & Ha & _)|(-> & e & _ & Hcase)].
  - rewrite Hib in Hbusy. apply Forall_cons in Hbusy as [Hb Hbusy].
    unfold tick. split; [lia|]. eexists. repeat split. exact Hbusy.
  - split.
    + destruct Hcase as [[Hr ->]|[(Hr & -> & _)|(Hr & a & rest & Hib & Ha & -> & _)]];
        try lia.
      rewrite Hib in Hbusy. apply Forall_cons in Hbusy as [Hb _].
      unfold tick. lia.
    + eexists. repeat split. exact Hbusy.
Qed.

Lemma receive_loop_clock eps count start_time effective_timeout :
  forall (k : nat) w c msgs,
    pending w = k ->
    ws (self w) = Some c -> 0 <= sock_timeout c -> 0 <= eps ->
    Forall (fun a => Z.of_N (busy a) <= eps) (inbox c) ->
    now w <= now (snd (receive_loop count start_time effective_timeout msgs w))
          <= Z.max (now w) (start_time + effective_timeout + eps).
Proof.
  induction k as [k IH] using lt_wf_ind.
  intros w c msgs Hk Hc Hst Heps Hbusy. subst k. rewrite receive_loop_step.
  destruct (Z.ltb _ count); [|cbn; lia].
  destruct (Z.gtb _ _) eqn:Hguard; [cbn; lia|].
  destruct (receive_message _ w) as [[msg|e] w1] eqn:E.
  - destruct (receive_message_within eps _ _ _ _ _ _ Hc Hst Heps Hbusy Hguard E)
      as [Hclock (c1 & Hc1 & Hst1 & Hbusy1)].
    apply receive_message_consumes in E. rewrite <- Hst1 in Hst.
    destruct (is_noise msg).
    + pose proof (IH _ E w1 c1 msgs eq_refl Hc1 Hst Heps Hbusy1). lia.
    + pose proof (IH _ E w1 c1 (msgs ++ [msg]) eq_refl Hc1 Hst Heps Hbusy1). lia.
  - destruct (receive_message_within eps _ _ _ _ _ _ Hc Hst Heps Hbusy Hguard E)
      as [Hclock _].
    destruct msgs; cbn; lia.
Qed.

Lemma wait_loop_clock eps method start_time effective_timeout :
  forall (k : nat) w c,
    pending w = k ->
    ws (self w) = Some c -> 0 <= sock_timeout c -> 0 <= eps ->
    Forall (fun a => Z.of_N (busy a) <= eps) (inbox c) ->
    now w <= now (snd (wait_loop method start_time effective_timeout w))
          <= Z.max (now w) (start_time + effective_timeout + eps).
Proof.
  induction k as [k IH] using lt_wf_ind.
  intros w c Hk Hc Hst Heps Hbusy. subst k. rewrite wait_loop_step.
  destruct (Z.gtb _ _) eqn:Hguard; [cbn; lia|].
  destruct (receive_message _ w) as [[msg|e] w1] eqn:E.
  - destruct (receive_message_within eps _ _ _ _ _ _ Hc Hst Heps Hbusy Hguard E)
      as [Hclock (c1 & Hc1 & Hst1 & Hbusy1)].
    apply receive_message_consumes in E. rewrite <- Hst1 in Hst.
    destruct (method_response method msg); [cbn; lia|].
    pose proof (IH _ E w1 c1 eq_refl Hc1 Hst Heps Hbusy1). lia.
  - destruct (receive_message_within eps _ _ _ _ _ _ Hc Hst Heps Hbusy Hguard E)
      as [Hclock _].
    cbn; lia.
Qed.

(** X7. The aggregate deadline holds.  On a connected session with a
    valid timeout setting, if the caller is never kept busy for more than
    [eps] after a frame, then [receive_messages], [subscribe] and
    [unsubscribe] end no later than their effective timeout plus [eps]
    after they started (or at once when that moment is already past),
    however many frames arrive; and the clock never runs backwards. *)
Theorem operations_end_by_the_deadline (py_str : pyval -> string) (w : world)
    (c : WebSocket) (eps : Z) :
  ws (self w) = Some c -> 0 <= sock_timeout c -> 0 <= eps ->
  Forall (fun a => Z.of_N (busy a) <= eps) (inbox c) ->
  (forall count override,
     now w <= now (snd (receive_messages count override w))
           <= Z.max (now w) (now w + py_or override (timeout (self w)) + eps)) /\
  (forall channel symbol options,
     now w <= now (snd (subscribe py_str channel symbol options w))
           <= Z.max (now w) (now w + timeout (self w) + eps)) /\
  (forall channel symbol options,
     now w <= now (snd (unsubscribe channel symbol options w))
           <= Z.max (now w) (now w + timeout (self w) + eps)).
Proof.
  intros Hc Hst Heps Hbusy. split; [|split].
  - intros count override. unfold receive_messages.
    eapply receive_loop_clock; eauto.
  - intros channel symbol options.
    destruct (is_closed (now w) c) eqn:Ho;
      [rewrite (subscribe_closed _ _ _ _ _ _ Hc Ho); cbn [snd]; lia|].
    rewrite (subscribe_connected _ _ _ _ _ _ Hc Ho). unfold _wait_for_method.
    pose proof (wait_loop_clock eps "subscribe" (now w) (timeout (self w)) _
                  (set_ws (Some (sending (json_dumps (request "subscribe" channel symbol options)) c)) w)
                  (sending (json_dumps (request "subscribe" channel symbol options)) c)
                  eq_refl eq_refl Hst Heps Hbusy) as H.
    cbn [now set_ws self timeout py_or] in *.
    destruct (wait_loop _ _ _ _) as [[ack|e] w1]; [|exact H].
    destruct (truthy _); exact H.
  - intros channel symbol options.
    destruct (is_closed (now w) c) eqn:Ho;
      [rewrite (unsubscribe_closed _ _ _ _ _ Hc Ho); cbn [snd]; lia|].
    rewrite (unsubscribe_connected _ _ _ _ _ Hc Ho). unfold _wait_for_method.
    exact (wait_loop_clock eps "unsubscribe" (now w) (timeout (self w)) _
             (set_ws (Some (sending (json_dumps (request "unsubscribe" channel symbol options)) c)) w)
             (sending (json_dumps (request "unsubscribe" channel symbol options)) c)
             eq_refl eq_refl Hst Heps Hbusy).
Qed.

Lemma operations_end_by_the_deadline_witness :
  0 <= now (snd (receive_messages 5 (Some 4) (session mixed_stream)))
    <= Z.max 0 (0 + 4 + 1).
Proof.
  assert (Hst : 0 <= 30) by lia.
  assert (Heps : 0 <= 1) by lia.
  assert (Hbusy : Forall (fun a => Z.of_N (busy a) <= 1) mixed_stream).
  { repeat constructor; cbn; lia. }
  exact (proj1 (operations_end_by_the_deadline str_sample (session mixed_stream)
                  {| sock_timeout := 30; sent := []; inbox := mixed_stream |} 1
                  eq_refl Hst Heps Hbusy) 5 (Some 4)).
Defined.

(** ** Waiting in vain *)

Lemma wait_loop_in_vain method start_time effective_timeout :
  forall (k : nat) w c,
    pending w = k ->
    ws (self w) = Some c -> 0 <= sock_timeout c ->
    Forall (passed_over method) (inbox c) ->
    exists e w',
      wait_loop method start_time effective_timeout w = (Raise e, w') /\
      is_timeout e = true.
Proof.
  induction k as [k IH] using lt_wf_ind.
  intros w c Hk Hc Hst Hall. subst k. rewrite wait_loop_step.
  destruct (Z.gtb _ _) eqn:Hguard; [eexists _, _; split; reflexivity|].
  pose proof (receive_message_consumes
                (Some (effective_timeout - (now w - start_time))) w) as Hless.
  rewrite (receive_message_connected _ w c Hc Hst) in *.
  cbn [from_option id] in *.
  destruct (received _ _ c) as [[res n] ib] eqn:R.
  apply received_cases in R.
  destruct R as [(a & Hib & _ & _ & _ & Hres)|(-> & e & -> & Hcase)].
  - rewrite Hib in Hall. apply Forall_cons in Hall as [(v & Hv & Hm) Hall].
    destruct Hres as [(v' & Hv' & ->)|(text & Hnone & _)]; [|congruence].
    assert (v' = v) as -> by congruence.
    rewrite Hm. specialize (Hless v _ eq_refl).
    apply (IH _ Hless _ {| sock_timeout := sock_timeout c; sent := sent c;
                           inbox := ib |} eq_refl eq_refl Hst Hall).
  - destruct Hcase as [[Hr _]|[(_ & _ & ->)|(_ & a & rest & Hib & _ & _ & Hnone)]].
    + rewrite Z.gtb_ltb in Hguard. apply Z.ltb_ge in Hguard. lia.
    + eexists _, _; split; reflexivity.
    + rewrite Hib in Hall. apply Forall_cons in Hall as [(v & Hv & _) _]. congruence.
Qed.

(** X8. When the frames the endpoint delivers are all JSON messages that
    do not carry the awaited method tag, however many they are,
    [subscribe] and [unsubscribe] on a connected session never return a
    value: they fail with a timeout error ([TimeoutError] from the loop's
    check, or the connection's timeout exception). *)
Theorem no_acknowledgment_times_out (py_str : pyval -> string) (w : world)
    (c : WebSocket) (channel : string) (symbol : list string) (options : Dict) :
  ws (self w) = Some c -> 0 <= sock_timeout c ->
  (Forall (passed_over "subscribe") (inbox c) ->
   exists e,
     fst (subscribe py_str channel symbol options w) = Raise e /\
     is_timeout e = true) /\
  (Forall (passed_over "unsubscribe") (inbox c) ->
   exists e,
     fst (unsubscribe channel symbol options w) = Raise e /\
     is_timeout e = true).
Proof.
  intros Hc Hst. split; intros Hall.
  - rewrite (subscribe_connected _ _ _ _ _ _ Hc
               (open_frames _ _ (Forall_impl _ _ _ Hall (passed_over_json _)))).
    unfold _wait_for_method.
    destruct (wait_loop_in_vain "subscribe" (now w) (timeout (self w)) _
                (set_ws (Some (sending (json_dumps (request "subscribe" channel symbol options)) c)) w)
                (sending (json_dumps (request "subscribe" channel symbol options)) c)
                eq_refl eq_refl Hst Hall) as (e & w' & E & T).
    cbn [now set_ws self timeout py_or] in *. rewrite E. eauto.
  - rewrite (unsubscribe_connected _ _ _ _ _ Hc
               (open_frames _ _ (Forall_impl _ _ _ Hall (passed_over_json _)))).
    unfold _wait_for_method.
    destruct (wait_loop_in_vain "unsubscribe" (now w) (timeout (self w)) _
                (set_ws (Some (sending (json_dumps (request "unsubscribe" channel symbol options)) c)) w)
                (sending (json_dumps (request "unsubscribe" channel symbol options)) c)
                eq_refl eq_refl Hst Hall) as (e & w' & E & T).
    cbn [now set_ws self timeout py_or] in *. rewrite E. eauto.
Qed.

Lemma no_acknowledgment_times_out_witness :
  exists e,
    fst (subscribe str_sample "ticker" ["BTC/USD"] ∅
           (session [json_frame 1 heartbeat 0; json_frame 2 ticker_update 0])) =
      Raise e /\
    is_timeout e = true.
Proof.
  assert (Hst : 0 <= 30) by lia.
  assert (Hall : Forall (passed_over "subscribe")
                   [json_frame 1 heartbeat 0; json_frame 2 ticker_update 0]).
  { repeat constructor; eexists; split; reflexivity. }
  exact (proj1 (no_acknowledgment_times_out str_sample
                  (session [json_frame 1 heartbeat 0; json_frame 2 ticker_update 0])
                  {| sock_timeout := 30; sent := [];
                     inbox := [json_frame 1 heartbeat 0; json_frame 2 ticker_update 0] |}
                  "ticker" ["BTC/USD"] ∅ eq_refl Hst) Hall).
Defined.

(** ** One operation after another *)

(** [subscribe] in full when its acknowledgment arrives in time: the
    outcome, and the session it leaves. *)
Lemma subscribe_in_full py_str w c channel symbol options skipped a ack rest :
  ws (self w) = Some c -> 0 <= sock_timeout c ->
  inbox c = skipped ++ a :: rest ->
  Forall (passed_over "subscribe") skipped ->
  json_of a = Some (PDict ack) ->
  tagged "method" "subscribe" (PDict ack) = true ->
  in_time (now w + timeout (self w)) (now w) (skipped ++ [a]) ->
  subscribe py_str channel symbol options w =
    (if truthy (get ack "success") then Return ack
     else Raise (ValueError ("Subscription failed: "
                   +:+ py_str (get_or ack "error" (PStr "Unknown error")))),
     moved w (sending (json_dumps (request "subscribe" channel symbol options)) c)
       (sock_timeout c) (clock_after (now w) (skipped ++ [a])) rest).
Proof.
  intros Hc Hst Hib Hsk Ha Htag Hin.
  rewrite (subscribe_connected _ _ _ _ _ _ Hc
             (open_before_message _ _ _ _ _ _ _ Hib Hsk Ha)).
  rewrite (wait_for_method_finds "subscribe" None
             (set_ws (Some (sending (json_dumps (request "subscribe" channel symbol options)) c)) w)
             (sending (json_dumps (request "subscribe" channel symbol options)) c)
             skipped a ack rest eq_refl Hst Hib Hsk Ha Htag Hin).
  destruct (truthy _); reflexivity.
Qed.

(** X9. [subscribe] followed by [receive_messages]: every message the
    second call returns comes from the frames that followed the
    acknowledgment.  What arrived before the acknowledgment, data messages
    included, was taken from the inbox by [subscribe] and is never handed
    to the caller. *)
Theorem messages_before_the_acknowledgment_are_dropped
    (py_str : pyval -> string) (w w' : world) (c : WebSocket) (channel : string)
    (symbol : list string) (options : Dict) (skipped : list arrival)
    (a : arrival) (ack : Dict) (rest : list arrival) (count : Z)
    (override : option Z) (l : list pyval) :
  ws (self w) = Some c -> 0 <= sock_timeout c ->
  inbox c = skipped ++ a :: rest ->
  Forall (passed_over "subscribe") skipped ->
  json_of a = Some (PDict ack) ->
  has_tag "method" "subscribe" (PDict ack) ->
  in_time (now w + timeout (self w)) (now w) (skipped ++ [a]) ->
  (let* _ := subscribe py_str channel symbol options in
   receive_messages count override) w = (Return l, w') ->
  exists consumed c',
    ws (self w') = Some c' /\
    rest = consumed ++ inbox c' /\
    l = collected consumed.
Proof.
  intros Hc Hst Hib Hsk Ha Htag Hin. apply tagged_has_tag in Htag.
  unfold bind.
  rewrite (subscribe_in_full py_str w c channel symbol options skipped a ack rest
             Hc Hst Hib Hsk Ha Htag Hin).
  destruct (truthy _); [|discriminate].
  intros H. unfold receive_messages in H.
  apply (receive_loop_conserves _ _ _ _
           (moved w (sending (json_dumps (request "subscribe" channel symbol options)) c)
              (sock_timeout c) (clock_after (now w) (skipped ++ [a])) rest)
           {| sock_timeout := sock_timeout c;
              sent := sent (sending (json_dumps (request "subscribe" channel symbol options)) c);
              inbox := rest |} _ _ _ eq_refl eq_refl Hst) in H.
  exact H.
Qed.

Lemma messages_before_the_acknowledgment_are_dropped_witness :
  exists consumed c',
    ws (self (snd ((let* _ := subscribe str_sample "ticker" ["BTC/USD"] ∅ in
                    receive_messages 1 None) (session early_data_stream)))) =
      Some c' /\
    [json_frame 3 heartbeat 0; json_frame 4 ticker_update 0] = consumed ++ inbox c' /\
    [ticker_update] = collected consumed.
Proof.
  assert (Hst : 0 <= 30) by lia.
  assert (Hsk : Forall (passed_over "subscribe") [json_frame 1 ticker_update 0]).
  { repeat constructor; eexists; split; reflexivity. }
  assert (Htag : has_tag "method" "subscribe" (PDict (acceptance "subscribe" "ticker"))).
  { eexists; split; reflexivity. }
  assert (Hin : in_time (0 + 30) 0
                  ([json_frame 1 ticker_update 0]
                   ++ [json_frame 2 (PDict (acceptance "subscribe" "ticker")) 0]))
    by timing.
  assert (E : (let* _ := subscribe str_sample "ticker" ["BTC/USD"] ∅ in
               receive_messages 1 None) (session early_data_stream) =
              (Return [ticker_update],
               snd ((let* _ := subscribe str_sample "ticker" ["BTC/USD"] ∅ in
                     receive_messages 1 None) (session early_data_stream))))
    by (vm_compute; reflexivity).
  exact (messages_before_the_acknowledgment_are_dropped str_sample
           (session early_data_stream)
           (snd ((let* _ := subscribe str_sample "ticker" ["BTC/USD"] ∅ in
                  receive_messages 1 None) (session early_data_stream)))
           {| sock_timeout := 30; sent := []; inbox := early_data_stream |}
           "ticker" ["BTC/USD"] ∅
           [json_frame 1 ticker_update 0]
           (json_frame 2 (PDict (acceptance "subscribe" "ticker")) 0)
           (acceptance "subscribe" "ticker")
           [json_frame 3 heartbeat 0; json_frame 4 ticker_update 0]
           1 None [ticker_update] eq_refl Hst eq_refl Hsk eq_refl Htag Hin E).
Defined.

(** X10. Two [subscribe] calls in a row: the second returns the next
    inbound message tagged "subscribe" that follows the first
    acknowledgment, whichever request that message acknowledges; the
    channel of the second call plays no part. *)
Theorem second_subscribe_takes_the_next_acknowledgment
    (py_str : pyval -> string) (w : world) (c : WebSocket)
    (channel1 channel2 : string) (symbol1 symbol2 : list string)
    (options1 options2 : Dict) (skipped between rest : list arrival)
    (a1 a2 : arrival) (ack1 ack2 : Dict) :
  ws (self w) = Some c -> 0 <= sock_timeout c ->
  inbox c = skipped ++ a1 :: between ++ a2 :: rest ->
  Forall (passed_over "subscribe") skipped ->
  Forall (passed_over "subscribe") between ->
  json_of a1 = Some (PDict ack1) -> json_of a2 = Some (PDict ack2) ->
  has_tag "method" "subscribe" (PDict ack1) ->
  has_tag "method" "subscribe" (PDict ack2) ->
  truthy (get ack1 "success") = true ->
  truthy (get ack2 "success") = true ->
  in_time (now w + timeout (self w)) (now w) (skipped ++ [a1]) ->
  in_time (clock_after (now w) (skipped ++ [a1]) + timeout (self w))
          (clock_after (now w) (skipped ++ [a1])) (between ++ [a2]) ->
  fst ((let* _ := subscribe py_str channel1 symbol1 options1 in
        subscribe py_str channel2 symbol2 options2) w) = Return ack2.
Proof.
  intros Hc Hst Hib Hsk Hbt Ha1 Ha2 Htag1 Htag2 Hs1 Hs2 Hin1 Hin2.
  apply tagged_has_tag in Htag1, Htag2.
  unfold bind.
  rewrite (subscribe_in_full py_str w c channel1 symbol1 options1 skipped a1 ack1
             (between ++ a2 :: rest) Hc Hst Hib Hsk Ha1 Htag1 Hin1).
  rewrite Hs1.
  rewrite (subscribe_in_full py_str
             (moved w (sending (json_dumps (request "subscribe" channel1 symbol1 options1)) c)
                (sock_timeout c) (clock_after (now w) (skipped ++ [a1]))
                (between ++ a2 :: rest))
             {| sock_timeout := sock_timeout c;
                sent := sent (sending (json_dumps (request "subscribe" channel1 symbol1 options1)) c);
                inbox := between ++ a2 :: rest |}
             channel2 symbol2 options2 between a2 ack2 rest
             eq_refl Hst eq_refl Hbt Ha2 Htag2 Hin2).
  rewrite Hs2. reflexivity.
Qed.

Lemma second_subscribe_takes_the_next_acknowledgment_witness :
  fst ((let* _ := subscribe str_sample "ticker" ["BTC/USD"; "SOL/USD"] ∅ in
        subscribe str_sample "book" ["BTC/USD"] ∅) (session two_symbol_stream)) =
  Return (acceptance "subscribe" "ticker").
Proof.
  assert (Hst : 0 <= 30) by lia.
  assert (Htag : has_tag "method" "subscribe" (PDict (acceptance "subscribe" "ticker"))).
  { eexists; split; reflexivity. }
  assert (Hin1 : in_time (0 + 30) 0
                   ([] ++ [json_frame 1 (PDict (acceptance "subscribe" "ticker")) 0]))
    by timing.
  assert (Hin2 : in_time
                   (clock_after 0 ([] ++ [json_frame 1 (PDict (acceptance "subscribe" "ticker")) 0]) + 30)
                   (clock_after 0 ([] ++ [json_frame 1 (PDict (acceptance "subscribe" "ticker")) 0]))
                   ([] ++ [json_frame 2 (PDict (acceptance "subscribe" "ticker")) 0]))
    by timing.
  exact (second_subscribe_takes_the_next_acknowledgment str_sample
           (session two_symbol_stream)
           {| sock_timeout := 30; sent := []; inbox := two_symbol_stream |}
           "ticker" "book" ["BTC/USD"; "SOL/USD"] ["BTC/USD"] ∅ ∅
           [] [] [json_frame 3 (PDict (acceptance "subscribe" "book")) 0]
           (json_frame 1 (PDict (acceptance "subscribe" "ticker")) 0)
           (json_frame 2 (PDict (acceptance "subscribe" "ticker")) 0)
           (acceptance "subscribe" "ticker") (acceptance "subscribe" "ticker")
           eq_refl Hst eq_refl (List.Forall_nil _) (List.Forall_nil _) eq_refl eq_refl
           Htag Htag eq_refl eq_refl Hin1 Hin2).
Defined.

(** X11. When the frames up to the [count]-th data message all arrive in
    time, [receive_messages] returns exactly the first [count] data
    messages, in order, and takes nothing beyond the last of them: the
    frames that follow stay in the inbox for the next call. *)
Theorem receive_messages_full_count (w : world) (c : WebSocket) (count : Z)
    (override : option Z) (prefix : list arrival) (a : arrival) (v : pyval)
    (rest : list arrival) :
  ws (self w) = Some c -> 0 <= sock_timeout c ->
  inbox c = prefix ++ a :: rest ->
  Forall (fun a => is_Some (json_of a)) prefix ->
  json_of a = Some v -> is_noise v = false ->
  in_time (now w + py_or override (timeout (self w))) (now w) (prefix ++ [a]) ->
  Z.of_nat (length (collected prefix)) + 1 = count ->
  fst (receive_messages count override w) = Return (collected prefix ++ [v]) /\
  Z.of_nat (length (collected prefix ++ [v])) = count /\
  exists c',
    ws (self (snd (receive_messages count override w))) = Some c' /\
    inbox c' = rest.
Proof.
  intros Hc Hst Hib Hjs Hv Hnoise Hin Hcount.
  apply in_time_app in Hin as [Hin1 Hin2]. cbn in Hin2. destruct Hin2 as (Hn & Hat & _).
  rewrite (receive_messages_after_prefix count override w c prefix (a :: rest)
             Hc Hst Hib Hjs Hin1 ltac:(lia)).
  rewrite receive_loop_step.
  replace (Z.ltb _ count) with true by lia.
  destruct (receive_message_in_time
              (moved w c (sock_timeout c) (clock_after (now w) prefix) (a :: rest))
              {| sock_timeout := sock_timeout c; sent := sent c; inbox := a :: rest |}
              a rest v (now w) (py_or override (timeout (self w)))
              eq_refl Hst eq_refl Hv Hn Hat) as [-> ->].
  rewrite Hnoise, receive_loop_step.
  replace (Z.ltb _ count) with false
    by (symmetry; apply Z.ltb_ge; rewrite length_app; cbn [length]; lia).
  cbn. repeat split.
  - rewrite length_app. cbn [length]. lia.
  - eexists. split; reflexivity.
Qed.

Lemma receive_messages_full_count_witness :
  fst (receive_messages 2 None (session mixed_stream)) =
    Return [ticker_update; ticker_update] /\
  exists c',
    ws (self (snd (receive_messages 2 None (session mixed_stream)))) = Some c' /\
    inbox c' = [].
Proof.
  assert (Hst : 0 <= 30) by lia.
  assert (Hjs : Forall (fun a => is_Some (json_of a))
                  [json_frame 1 status_message 0;
                   json_frame 2 (PDict (acceptance "subscribe" "ticker")) 0;
                   json_frame 3 ticker_update 0;
                   json_frame 4 heartbeat 0;
                   json_frame 5 (PDict (acceptance "unsubscribe" "ticker")) 0]).
  { repeat constructor; eexists; reflexivity. }
  assert (Hin : in_time (0 + 30) 0
                  ([json_frame 1 status_message 0;
                    json_frame 2 (PDict (acceptance "subscribe" "ticker")) 0;
                    json_frame 3 ticker_update 0;
                    json_frame 4 heartbeat 0;
                    json_frame 5 (PDict (acceptance "unsubscribe" "ticker")) 0]
                   ++ [json_frame 6 ticker_update 1])) by timing.
  assert (Hcount : Z.of_nat (length (collected
                     [json_frame 1 status_message 0;
                      json_frame 2 (PDict (acceptance "subscribe" "ticker")) 0;
                      json_frame 3 ticker_update 0;
                      json_frame 4 heartbeat 0;
                      json_frame 5 (PDict (acceptance "unsubscribe" "ticker")) 0])) + 1 = 2)
    by (vm_compute; reflexivity).
  pose proof (receive_messages_full_count (session mixed_stream)
                {| sock_timeout := 30; sent := []; inbox := mixed_stream |}
                2 None
                [json_frame 1 status_message 0;
                 json_frame 2 (PDict (acceptance "subscribe" "ticker")) 0;
                 json_frame 3 ticker_update 0;
                 json_frame 4 heartbeat 0;
                 json_frame 5 (PDict (acceptance "unsubscribe" "ticker")) 0]
                (json_frame 6 ticker_update 1) ticker_update []
                eq_refl Hst eq_refl Hjs eq_refl eq_refl Hin Hcount) as (H1 & _ & H3).
  split; [exact H1|exact H3].
Defined.

(** * Further properties of the book checksum *)

Section ChecksumDepth.

Variable py_str : pyval -> string.

(** The checksum is that of the interleaving of the two slices, for any
    [depth]. *)
Lemma checksum_of_slices bids asks depth :
  calculate_book_checksum py_str bids asks depth =
  crc32 (encode_utf8 (join (interleaved py_str (slice_to asks depth)
                                        (slice_to bids depth)))).
Proof.
  unfold calculate_book_checksum. cbn zeta.
  rewrite checksum_loop_rows, rows_interleaved. cbn [app].
  change 0xFFFFFFFF with (Z.ones 32).
  pose proof (crc32_32 _ (encode_utf8_bytes
                 (join (interleaved py_str (slice_to asks depth)
                                    (slice_to bids depth))))) as H.
  apply Z.land_ones_low; [lia|].
  destruct (Z.eq_dec (crc32 (encode_utf8
              (join (interleaved py_str (slice_to asks depth)
                                 (slice_to bids depth))))) 0) as [->|Hne];
    [cbn; lia|apply Z.log2_lt_pow2; lia].
Qed.

End ChecksumDepth.

(** X12. Levels beyond the top [depth] play no part in the checksum:
    when both sides hold at least [depth] levels, appending any further
    levels to either side leaves the result unchanged. *)
Theorem checksum_ignores_levels_beyond_depth (py_str : pyval -> string)
    (bids asks more_bids more_asks : list level) (depth : Z) :
  0 <= depth ->
  (Z.to_nat depth <= length bids)%nat ->
  (Z.to_nat depth <= length asks)%nat ->
  calculate_book_checksum py_str (bids ++ more_bids) (asks ++ more_asks) depth =
  calculate_book_checksum py_str bids asks depth.
Proof.
  intros Hdepth Hbids Hasks.
  rewrite !checksum_of_slices, !slice_to_top by exact Hdepth.
  rewrite !take_app_le by assumption. reflexivity.
Qed.

Lemma checksum_ignores_levels_beyond_depth_witness :
  calculate_book_checksum str_sample (sample_bids ++ sample_asks)
    (sample_asks ++ sample_bids) 1 =
  calculate_book_checksum str_sample sample_bids sample_asks 1.
Proof.
  assert (Hdepth : 0 <= 1) by lia.
  assert (Hbids : (Z.to_nat 1 <= length sample_bids)%nat) by (cbn; lia).
  assert (Hasks : (Z.to_nat 1 <= length sample_asks)%nat) by (cbn; lia).
  exact (checksum_ignores_levels_beyond_depth str_sample sample_bids sample_asks
           sample_asks sample_bids 1 Hdepth Hbids Hasks).
Defined.

(** X13. With depth 0, and with an empty book at any depth, the checksum
    is 0, the CRC-32 of the empty string; the checksum is then not
    positive. *)
Theorem checksum_of_nothing_is_zero (py_str : pyval -> string)
    (bids asks : list level) (depth : Z) :
  calculate_book_checksum py_str bids asks 0 = 0 /\
  calculate_book_checksum py_str [] [] depth = 0.
Proof.
  rewrite !checksum_of_slices. split.
  - rewrite !slice_to_top by lia. reflexivity.
  - unfold slice_to. destruct (Z.leb 0 depth); rewrite !take_nil; reflexivity.
Qed.

(** X14. A negative [depth] does not give an empty selection: the slice
    then drops that many levels from the end of each side, and the
    checksum is that of the levels that remain. *)
Theorem checksum_negative_depth_drops_last_levels (py_str : pyval -> string)
    (bids asks : list level) (depth : Z) :
  depth < 0 ->
  calculate_book_checksum py_str bids asks depth =
  crc32 (encode_utf8
           (join (interleaved py_str
                    (take (length asks - Z.to_nat (- depth)) asks)
                    (take (length bids - Z.to_nat (- depth)) bids)))).
Proof.
  intros Hdepth. rewrite checksum_of_slices.
  unfold slice_to. replace (Z.leb 0 depth) with false by lia.
  reflexivity.
Qed.

Lemma checksum_negative_depth_drops_last_levels_witness :
  calculate_book_checksum str_sample sample_bids sample_asks (-1) =
  crc32 (encode_utf8 "50000105").
Proof.
  assert (Hdepth : -1 < 0) by lia.
  exact (checksum_negative_depth_drops_last_levels str_sample sample_bids
           sample_asks (-1) Hdepth).
Defined.

(** * Properties of the order validators *)

Lemma first_raise_true check indices :
  first_raise check indices = Return true <->
  Forall (fun i => check i = None) indices.
Proof.
  induction indices as [|i rest IH]; cbn.
  - split; [constructor|reflexivity].
  - destruct (check i) as [e|] eqn:E.
    + split; [discriminate|]. intros H. inversion H. congruence.
    + rewrite IH. split; [intros H; constructor; assumption|].
      intros H. inversion H. assumption.
Qed.

Lemma first_raise_raises check indices e :
  first_raise check indices = Raise e ->
  exists before i after,
    indices = before ++ i :: after /\
    Forall (fun j => check j = None) before /\
    check i = Some e.
Proof.
  induction indices as [|i rest IH]; cbn; [discriminate|].
  destruct (check i) as [e'|] eqn:E.
  - intros [= ->]. exists [], i, rest. repeat split; [constructor|exact E].
  - intros H. destruct (IH H) as (before & j & after & -> & Hb & Hj).
    exists (i :: before), j, after. repeat split; [constructor; assumption|exact Hj].
Qed.

Lemma first_raise_never_false check indices :
  first_raise check indices <> Return false.
Proof.
  induction indices as [|i rest IH]; cbn; [discriminate|].
  destruct (check i); [discriminate|exact IH].
Qed.

(** The loop over [range(1, len(xs))] passes when every pair of
    neighbours passes. *)
Lemma pairs_pass xs (body : nat -> float -> float -> option exn) :
  Forall (fun i => at_pair xs i (body i) = None) (seq 1 (length xs - 1)) <->
  forall i prev cur,
    xs !! i = Some prev -> xs !! S i = Some cur -> body (S i) prev cur = None.
Proof.
  rewrite Forall_forall. split.
  - intros H i prev cur Hp Hc.
    assert (Hin : S i ∈ seq 1 (length xs - 1)).
    { apply elem_of_seq. apply lookup_lt_Some in Hc. lia. }
    specialize (H _ Hin). unfold at_pair in H.
    replace (S i - 1)%nat with i in H by lia. rewrite Hp, Hc in H. exact H.
  - intros H i Hin. apply elem_of_seq in Hin. unfold at_pair.
    destruct i as [|i]; [lia|]. replace (S i - 1)%nat with i by lia.
    destruct (xs !! i) as [prev|] eqn:Hp; [|reflexivity].
    destruct (xs !! S i) as [cur|] eqn:Hc; [|reflexivity].
    exact (H i prev cur Hp Hc).
Qed.

Lemma seq_split_at start n before j after :
  seq start n = before ++ j :: after ->
  before = seq start (length before) /\ j = (start + length before)%nat.
Proof.
  revert start n. induction before as [|b before IH]; intros start n H.
  - destruct n; cbn in H; [discriminate|]. injection H as <- _. cbn. split; [reflexivity|lia].
  - destruct n; cbn in H; [discriminate|]. injection H as <- H.
    destruct (IH _ _ H) as [Hb ->]. cbn. rewrite <- Hb. split; [reflexivity|lia].
Qed.

Lemma neighbours_take ok xs n :
  neighbours ok (take n xs) <->
  forall i prev cur,
    (S i < n)%nat -> xs !! i = Some prev -> xs !! S i = Some cur -> ok prev cur.
Proof.
  unfold neighbours. split.
  - intros H i prev cur Hi Hp Hc. apply (H i).
    + rewrite lookup_take_lt by lia. exact Hp.
    + rewrite lookup_take_lt by lia. exact Hc.
  - intros H i prev cur Hp Hc.
    assert (S i < n)%nat.
    { apply lookup_lt_Some in Hc. rewrite length_take in Hc. lia. }
    rewrite lookup_take_lt in Hp, Hc by lia. exact (H i prev cur ltac:(lia) Hp Hc).
Qed.

(** What a raise of the pair loop tells: the first pair that fails. *)
Lemma pairs_raise xs (body : nat -> float -> float -> option exn) e :
  first_raise (fun i => at_pair xs i (body i)) (seq 1 (length xs - 1)) = Raise e ->
  exists i prev cur,
    xs !! i = Some prev /\ xs !! S i = Some cur /\
    body (S i) prev cur = Some e /\
    forall j p q,
      (S j < S i)%nat -> xs !! j = Some p -> xs !! S j = Some q ->
      body (S j) p q = None.
Proof.
  intros H. apply first_raise_raises in H as (before & j & after & Hseq & Hb & Hj).
  pose proof (seq_split_at _ _ _ _ _ Hseq) as [Hbefore ->].
  unfold at_pair in Hj. cbn [Nat.add] in Hj.
  replace (S (length before) - 1)%nat with (length before) in Hj by lia.
  destruct (xs !! length before) as [prev|] eqn:Hp; [|discriminate].
  destruct (xs !! S (length before)) as [cur|] eqn:Hc; [|discriminate].
  exists (length before), prev, cur. repeat split; try assumption.
  intros k p q Hk Hkp Hkq.
  rewrite Hbefore in Hb. rewrite Forall_forall in Hb.
  assert (Hin : S k ∈ seq 1 (length before)) by (apply elem_of_seq; lia).
  specialize (Hb _ Hin). unfold at_pair in Hb.
  replace (S k - 1)%nat with k in Hb by lia. rewrite Hkp, Hkq in Hb. exact Hb.
Qed.

Lemma timestamps_pass py_str timestamps :
  validate_timestamps_increasing py_str timestamps = Return true <->
  neighbours (fun prev cur => PrimFloat.leb cur prev = false) timestamps.
Proof.
  unfold validate_timestamps_increasing, neighbours.
  rewrite first_raise_true.
  rewrite (pairs_pass timestamps (fun i prev cur =>
             if PrimFloat.leb cur prev then
               Some (ValueError ("Timestamps not strictly increasing: "
                       +:+ py_str (PFloat prev) +:+ " >= " +:+ py_str (PFloat cur)
                       +:+ " at index " +:+ str_int (Z.of_nat i)))
             else None)).
  split; intros H i prev cur Hp Hc; specialize (H i prev cur Hp Hc); cbn in *.
  - destruct (PrimFloat.leb cur prev); [discriminate|reflexivity].
  - rewrite H. reflexivity.
Qed.

Lemma prices_pass py_str prices descending :
  validate_price_ordering py_str prices descending = Return true <->
  neighbours (fun prev cur =>
                (if descending then PrimFloat.ltb prev cur
                 else PrimFloat.ltb cur prev) = false) prices.
Proof.
  unfold validate_price_ordering, neighbours.
  rewrite first_raise_true.
  rewrite (pairs_pass prices (fun i prev cur =>
             if descending then
               if PrimFloat.ltb prev cur then
                 Some (ValueError ("Prices not in descending order: "
                         +:+ py_str (PFloat prev) +:+ " < " +:+ py_str (PFloat cur)
                         +:+ " at index " +:+ str_int (Z.of_nat i)))
               else None
             else
               if PrimFloat.ltb cur prev then
                 Some (ValueError ("Prices not in ascending order: "
                         +:+ py_str (PFloat prev) +:+ " > " +:+ py_str (PFloat cur)
                         +:+ " at index " +:+ str_int (Z.of_nat i)))
               else None)).
  split; intros H i prev cur Hp Hc; specialize (H i prev cur Hp Hc); cbn in *.
  - destruct descending;
      [destruct (PrimFloat.ltb prev cur)|destruct (PrimFloat.ltb cur prev)];
      (discriminate || reflexivity).
  - destruct descending; rewrite H; reflexivity.
Qed.

(** X15. [validate_timestamps_increasing] returns [True] exactly when no
    timestamp is less than or equal to the one before it (so the empty
    and the one-element list pass); it never returns [False]; and when it
    raises, the [ValueError] names the first index at which a timestamp is
    not greater than its predecessor, all pairs before it being in
    order. *)
Theorem validate_timestamps_increasing_first_failure
    (py_str : pyval -> string) (timestamps : list float) :
  (validate_timestamps_increasing py_str timestamps = Return true <->
   neighbours (fun prev cur => PrimFloat.leb cur prev = false) timestamps) /\
  validate_timestamps_increasing py_str timestamps <> Return false /\
  (forall e,
     validate_timestamps_increasing py_str timestamps = Raise e ->
     exists i prev cur,
       timestamps !! i = Some prev /\ timestamps !! S i = Some cur /\
       PrimFloat.leb cur prev = true /\
       e = ValueError ("Timestamps not strictly increasing: "
              +:+ py_str (PFloat prev) +:+ " >= " +:+ py_str (PFloat cur)
              +:+ " at index " +:+ str_int (Z.of_nat (S i))) /\
       neighbours (fun prev cur => PrimFloat.leb cur prev = false)
         (take (S i) timestamps)).
Proof.
  split; [apply timestamps_pass|split; [apply first_raise_never_false|]].
  intros e H. unfold validate_timestamps_increasing in H.
  apply (pairs_raise timestamps (fun i prev cur =>
           if PrimFloat.leb cur prev then
             Some (ValueError ("Timestamps not strictly increasing: "
                     +:+ py_str (PFloat prev) +:+ " >= " +:+ py_str (PFloat cur)
                     +:+ " at index " +:+ str_int (Z.of_nat i)))
           else None)) in H.
  destruct H as (i & prev & cur & Hp & Hc & Hbad & Hfirst).
  exists i, prev, cur. cbn beta in Hbad.
  destruct (PrimFloat.leb cur prev) eqn:L; [|discriminate].
  injection Hbad as <-. repeat split; try assumption.
  apply neighbours_take. intros j p q Hj Hjp Hjq.
  specialize (Hfirst j p q Hj Hjp Hjq). cbn beta in Hfirst.
  destruct (PrimFloat.leb q p); [discriminate|reflexivity].
Qed.

(** X16. [validate_price_ordering] returns [True] exactly when no price
    is greater than the one before it (descending) or less than the one
    before it (ascending): equal neighbours pass.  It never returns
    [False], and when it raises there is a first pair out of order. *)
Theorem validate_price_ordering_first_failure (py_str : pyval -> string)
    (prices : list float) (descending : bool) :
  (validate_price_ordering py_str prices descending = Return true <->
   neighbours (fun prev cur =>
                 (if descending then PrimFloat.ltb prev cur
                  else PrimFloat.ltb cur prev) = false) prices) /\
  validate_price_ordering py_str prices descending <> Return false /\
  (forall e,
     validate_price_ordering py_str prices descending = Raise e ->
     exists i prev cur,
       prices !! i = Some prev /\ prices !! S i = Some cur /\
       (if descending then PrimFloat.ltb prev cur
        else PrimFloat.ltb cur prev) = true /\
       neighbours (fun prev cur =>
                     (if descending then PrimFloat.ltb prev cur
                      else PrimFloat.ltb cur prev) = false)
         (take (S i) prices)).
Proof.
  split; [apply prices_pass|split; [apply first_raise_never_false|]].
  intros e H. unfold validate_price_ordering in H.
  apply (pairs_raise prices (fun i prev cur =>
           if descending then
             if PrimFloat.ltb prev cur then
               Some (ValueError ("Prices not in descending order: "
                       +:+ py_str (PFloat prev) +:+ " < " +:+ py_str (PFloat cur)
                       +:+ " at index " +:+ str_int (Z.of_nat i)))
             else None
           else
             if PrimFloat.ltb cur prev then
               Some (ValueError ("Prices not in ascending order: "
                       +:+ py_str (PFloat prev) +:+ " > " +:+ py_str (PFloat cur)
                       +:+ " at index " +:+ str_int (Z.of_nat i)))
             else None)) in H.
  destruct H as (i & prev & cur & Hp & Hc & Hbad & Hfirst).
  exists i, prev, cur. cbn beta in Hbad. repeat split; try assumption.
  - destruct descending;
      [destruct (PrimFloat.ltb prev cur)|destruct (PrimFloat.ltb cur prev)];
      (discriminate || reflexivity).
  - apply neighbours_take. intros j p q Hj Hjp Hjq.
    specialize (Hfirst j p q Hj Hjp Hjq). cbn beta in Hfirst.
    destruct descending;
      [destruct (PrimFloat.ltb p q)|destruct (PrimFloat.ltb q p)];
      (discriminate || reflexivity).
Qed.

Lemma neighbours_rev_1 (ok : float -> float -> Prop) xs :
  neighbours (fun prev cur => ok cur prev) (rev xs) -> neighbours ok xs.
Proof.
  intros H i prev cur Hp Hc.
  pose proof (lookup_lt_Some _ _ _ Hc) as Hlen.
  rewrite rev_alt in H. change (rev_append xs []) with (reverse xs) in H.
  apply (H (length xs - S (S i))%nat cur prev).
  - rewrite reverse_lookup by lia.
    replace (length xs - S (length xs - S (S i)))%nat with (S i) by lia. exact Hc.
  - rewrite reverse_lookup by lia.
    replace (length xs - S (S (length xs - S (S i))))%nat with i by lia. exact Hp.
Qed.

Lemma neighbours_rev (ok : float -> float -> Prop) xs :
  neighbours (fun prev cur => ok cur prev) (rev xs) <-> neighbours ok xs.
Proof.
  split; [apply neighbours_rev_1|].
  intros H. apply (neighbours_rev_1 (fun prev cur => ok cur prev)).
  rewrite rev_involutive. exact H.
Qed.

Lemma ltb_leb (a b : float) : PrimFloat.ltb a b = true -> PrimFloat.leb a b = true.
Proof.
  rewrite FloatAxioms.ltb_spec, FloatAxioms.leb_spec. unfold SFltb, SFleb.
  destruct (SFcompare (Prim2SF a) (Prim2SF b)) as [[]|]; (discriminate || reflexivity).
Qed.

Lemma is_nan_spec (x : float) : PrimFloat.is_nan x = true -> Prim2SF x = S754_nan.
Proof.
  unfold PrimFloat.is_nan. rewrite FloatAxioms.eqb_spec. unfold SFeqb.
  destruct (Prim2SF x) as [s|s| |s m e]; cbn; try reflexivity.
  - discriminate.
  - destruct s; discriminate.
  - rewrite Z.compare_refl, Pos.compare_cont_refl. destruct s; discriminate.
Qed.

Lemma nan_compares_false (x y : float) :
  PrimFloat.is_nan x = true ->
  PrimFloat.leb x y = false /\ PrimFloat.leb y x = false /\
  PrimFloat.ltb x y = false /\ PrimFloat.ltb y x = false.
Proof.
  intros N. apply is_nan_spec in N.
  rewrite !FloatAxioms.ltb_spec, !FloatAxioms.leb_spec, N. unfold SFltb, SFleb.
  repeat split; destruct (Prim2SF y); reflexivity.
Qed.

(** X17. Reading a list of prices backwards swaps the two orders:
    the reversed list passes the check for one order exactly when the
    list passes the check for the other. *)
Theorem validate_price_ordering_reversed (py_str : pyval -> string)
    (prices : list float) (descending : bool) :
  validate_price_ordering py_str (rev prices) (negb descending) = Return true <->
  validate_price_ordering py_str prices descending = Return true.
Proof.
  rewrite !prices_pass. rewrite <- (neighbours_rev _ prices).
  unfold neighbours. destruct descending; cbn [negb]; reflexivity.
Qed.

(** X18. Timestamps that pass [validate_timestamps_increasing] also pass
    [validate_price_ordering] for the ascending order: the strict check
    is the stronger one. *)
Theorem increasing_timestamps_are_ascending (py_str : pyval -> string)
    (timestamps : list float) :
  validate_timestamps_increasing py_str timestamps = Return true ->
  validate_price_ordering py_str timestamps false = Return true.
Proof.
  rewrite timestamps_pass, prices_pass. intros H i prev cur Hp Hc.
  specialize (H i prev cur Hp Hc). cbn beta in *.
  destruct (PrimFloat.ltb cur prev) eqn:L; [|reflexivity].
  apply ltb_leb in L. congruence.
Qed.

Lemma increasing_timestamps_are_ascending_witness :
  validate_timestamps_increasing (fun _ => "") [1%float; 2%float; 4%float]
    = Return true /\
  validate_price_ordering (fun _ => "") [1%float; 2%float; 4%float] false
    = Return true.
Proof.
  split; [reflexivity|].
  exact (increasing_timestamps_are_ascending (fun _ => "")
           [1%float; 2%float; 4%float] eq_refl).
Defined.

(** X19. A NaN is never rejected: when each pair of neighbours holds a
    NaN, the list passes the timestamp check and the price check for
    both orders, whatever the other values are. *)
Theorem validators_accept_nan (py_str : pyval -> string) (xs : list float) :
  neighbours (fun prev cur =>
                PrimFloat.is_nan prev = true \/ PrimFloat.is_nan cur = true) xs ->
  validate_timestamps_increasing py_str xs = Return true /\
  forall descending, validate_price_ordering py_str xs descending = Return true.
Proof.
  intros H. split; [|intros descending];
    [rewrite timestamps_pass|rewrite prices_pass];
    intros i prev cur Hp Hc; specialize (H i prev cur Hp Hc); cbn beta in *.
  - destruct H as [N|N].
    + apply (nan_compares_false prev cur N).
    + apply (nan_compares_false cur prev N).
  - destruct descending, H as [N|N];
      solve [apply (nan_compares_false prev cur N)
            |apply (nan_compares_false cur prev N)].
Qed.

Lemma validators_accept_nan_witness :
  validate_timestamps_increasing (fun _ => "") [2%float; nan; 1%float]
    = Return true /\
  forall descending,
    validate_price_ordering (fun _ => "") [2%float; nan; 1%float] descending
      = Return true.
Proof.
  apply (validators_accept_nan (fun _ => "") [2%float; nan; 1%float]).
  intros [|[|[|i]]] prev cur Hp Hc; cbn in Hp, Hc; try discriminate;
    injection Hp as <-; injection Hc as <-; [right|left]; reflexivity.
Defined.

(** ** The order of floats *)

Lemma SFcompare_antisym (a b : spec_float) :
  SFcompare b a = option_map CompOpp (SFcompare a b).
Proof.
  destruct a as [sa|sa| |sa ma ea], b as [sb|sb| |sb mb eb]; cbn;
    try destruct sa; try destruct sb; cbn; try reflexivity;
    rewrite (Z.compare_antisym ea eb);
    destruct (ea ?= eb)%Z; cbn; try reflexivity;
    change (PosDef.Pos.compare_cont Eq ?p ?q) with (Pos.compare p q);
    rewrite (Pos.compare_antisym ma mb); destruct (ma ?= mb)%positive; reflexivity.
Qed.

Lemma SFcompare_none (a b : spec_float) :
  SFcompare a b = None -> a = S754_nan \/ b = S754_nan.
Proof.
  destruct a as [sa|sa| |sa ma ea], b as [sb|sb| |sb mb eb]; cbn; auto; discriminate.
Qed.

Lemma SFleb_trans (a b c : spec_float) :
  SFleb a b = true -> SFleb b c = true -> SFleb a c = true.
Proof.
  unfold SFleb.
  destruct a as [sa|sa| |sa ma ea], b as [sb|sb| |sb mb eb], c as [sc|sc| |sc mc ec];
    cbn; try destruct sa; try destruct sb; try destruct sc; cbn;
    try congruence;
    change (PosDef.Pos.compare_cont Eq ?p ?q) with (Pos.compare p q);
    destruct (Z.compare_spec ea eb), (Z.compare_spec eb ec), (Z.compare_spec ea ec);
    cbn; try congruence; try lia;
    destruct (Pos.compare_spec ma mb), (Pos.compare_spec mb mc), (Pos.compare_spec ma mc);
    cbn; try congruence; try lia.
Qed.

Lemma not_nan_spec (x : float) : PrimFloat.is_nan x = false -> Prim2SF x <> S754_nan.
Proof.
  unfold PrimFloat.is_nan. rewrite FloatAxioms.eqb_spec. intros H N.
  rewrite N in H. discriminate.
Qed.

(** Between two numbers, [a <= b] is the negation of [b < a]. *)
Lemma leb_not_ltb (a b : float) :
  PrimFloat.is_nan a = false -> PrimFloat.is_nan b = false ->
  PrimFloat.leb a b = negb (PrimFloat.ltb b a).
Proof.
  intros Na Nb. apply not_nan_spec in Na, Nb.
  rewrite FloatAxioms.ltb_spec, FloatAxioms.leb_spec. unfold SFltb, SFleb.
  rewrite (SFcompare_antisym (Prim2SF a) (Prim2SF b)).
  destruct (SFcompare (Prim2SF a) (Prim2SF b)) as [[]|] eqn:C; try reflexivity.
  apply SFcompare_none in C. tauto.
Qed.

Lemma leb_trans (a b c : float) :
  PrimFloat.leb a b = true -> PrimFloat.leb b c = true -> PrimFloat.leb a c = true.
Proof. rewrite !FloatAxioms.leb_spec. apply SFleb_trans. Qed.

(** X20. For four numbers (none of them a NaN),
    [validate_ohlc_relationships] returns [True] exactly when
    low <= open <= high and low <= close <= high; otherwise it raises, and
    it never returns [False]. *)
Theorem validate_ohlc_relationships_bounds (py_str : pyval -> string)
    (open_price high low close : float) :
  PrimFloat.is_nan open_price = false -> PrimFloat.is_nan high = false ->
  PrimFloat.is_nan low = false -> PrimFloat.is_nan close = false ->
  (validate_ohlc_relationships py_str open_price high low close = Return true <->
   PrimFloat.leb low open_price = true /\ PrimFloat.leb open_price high = true /\
   PrimFloat.leb low close = true /\ PrimFloat.leb close high = true) /\
  validate_ohlc_relationships py_str open_price high low close <> Return false.
Proof.
  intros No Nh Nl Nc.
  pose proof (leb_trans low open_price high) as T.
  rewrite (leb_not_ltb low open_price Nl No), (leb_not_ltb open_price high No Nh),
    (leb_not_ltb low close Nl Nc), (leb_not_ltb close high Nc Nh).
  rewrite (leb_not_ltb low open_price Nl No), (leb_not_ltb open_price high No Nh),
    (leb_not_ltb low high Nl Nh) in T.
  unfold validate_ohlc_relationships.
  destruct (PrimFloat.ltb open_price low), (PrimFloat.ltb close low),
    (PrimFloat.ltb high low), (PrimFloat.ltb high open_price),
    (PrimFloat.ltb high close); cbn in *;
    (split; [split; [intros H; try discriminate H; auto
                    |intros (H1 & H2 & H3 & H4);
                     try discriminate; try reflexivity;
                     specialize (T eq_refl eq_refl); discriminate]
            |discriminate]).
Qed.

Lemma validate_ohlc_relationships_bounds_witness :
  (validate_ohlc_relationships (fun _ => "") 2%float 3%float 1%float 2.5%float
     = Return true <->
   PrimFloat.leb 1 2 = true /\ PrimFloat.leb 2 3 = true /\
   PrimFloat.leb 1 2.5 = true /\ PrimFloat.leb 2.5 3 = true) /\
  validate_ohlc_relationships (fun _ => "") 2%float 3%float 1%float 2.5%float
    <> Return false.
Proof.
  exact (validate_ohlc_relationships_bounds (fun _ => "")
           2%float 3%float 1%float 2.5%float eq_refl eq_refl eq_refl eq_refl).
Defined.

(** X21. [validate_positive] returns [True] exactly for the values
    greater than zero and for NaN; every other value, both zeros
    included, raises the [ValueError] that names the field. *)
Theorem validate_positive_accepts (py_str : pyval -> string)
    (value : float) (field_name : string) :
  (validate_positive py_str value field_name = Return true <->
   PrimFloat.ltb 0 value = true \/ PrimFloat.is_nan value = true) /\
  (validate_positive py_str value field_name <> Return true ->
   validate_positive py_str value field_name =
     Raise (ValueError (field_name +:+ " must be positive: "
                          +:+ py_str (PFloat value)))).
Proof.
  unfold validate_positive. split.
  - destruct (PrimFloat.is_nan value) eqn:N.
    + destruct (nan_compares_false value 0 N) as (-> & _). tauto.
    + rewrite (leb_not_ltb value 0 N eq_refl).
      destruct (PrimFloat.ltb 0 value); cbn; split; intros H;
        try discriminate; try reflexivity; auto.
      destruct H; discriminate.
  - destruct (PrimFloat.leb value 0); [reflexivity|]. intros H. contradiction H. reflexivity.
Qed.
